(** * TicTacToeEnv: a shallow embedding of [environments/TicTacToeEnv.py]

    The environment is a Python object with three attributes ([board],
    [current_player], [done]); [board] refers to a numpy array that [step]
    updates in place and that [reset] and [step] hand out only as copies.
    The embedding keeps that sharing visible: arrays live in a heap, the
    attribute [board] is a location, a copy is a fresh location.  Exceptions
    (numpy's [IndexError]) are an outcome of their own. *)

From Stdlib Require Import ZArith Lia Floats.PrimFloat.
From stdpp Require Import gmap strings list.

Open Scope Z_scope.

Module TicTacToeEnv.

(** ** numpy arrays of shape (3, 3) and the operations the class uses *)

(** A two-dimensional array, as its list of rows. *)
Abbreviation ndarray := (list (list Z)).

(** [np.zeros((rows, cols), dtype=np.int8)] *)
Definition np_zeros (rows cols : nat) : ndarray :=
  replicate rows (replicate cols 0).

(** The shape every board of the class has. *)
Definition shape33 (b : ndarray) : Prop :=
  length b = 3%nat ∧ Forall (λ r, length r = 3%nat) b.

(** [divmod(action, 3)]: Python's floor division and the remainder that
    has the sign of the divisor, which are [Z.div] and [Z.modulo]. *)
Definition divmod (a d : Z) : Z * Z := (a `div` d, a `mod` d).

(** An index along an axis of length [n]: numpy counts a negative index
    from the end and refuses anything outside [-n, n). *)
Definition norm_index (n : nat) (i : Z) : option nat :=
  if decide (0 ≤ i < Z.of_nat n) then Some (Z.to_nat i)
  else if decide (- Z.of_nat n ≤ i < 0) then Some (Z.to_nat (i + Z.of_nat n))
  else None.

(** [b[i, j]]; [None] is numpy's IndexError. *)
Definition getitem (b : ndarray) (i j : Z) : option Z :=
  r ← norm_index (length b) i;
  row ← b !! r;
  c ← norm_index (length row) j;
  row !! c.

(** [b[i, j] = v], as the array after the assignment. *)
Definition setitem (b : ndarray) (i j : Z) (v : Z) : option ndarray :=
  r ← norm_index (length b) i;
  row ← b !! r;
  c ← norm_index (length row) j;
  Some (<[r := <[c := v]> row]> b).

(** [b[i, :]] and [b[:, j]] for [i], [j] in [range(3)]. *)
Definition row_slice (b : ndarray) (i : nat) : list Z := default [] (b !! i).
Definition col_slice (b : ndarray) (j : nat) : list Z := omap (λ r, r !! j) b.

(** [np.diag(b)] and [np.fliplr(b)]. *)
Definition np_diag (b : ndarray) : list Z :=
  omap (λ i, b !! i ≫= λ r, r !! i) (seq 0 (length b)).
Definition np_fliplr (b : ndarray) : ndarray := reverse <$> b.

(** [np.all(v == player)] on a one-dimensional array. *)
Definition np_all_eq (v : list Z) (player : Z) : bool :=
  forallb (λ x, x =? player) v.

(** [(b != 0).all()] *)
Definition np_all_nonzero (b : ndarray) : bool :=
  forallb (forallb (λ x, negb (x =? 0))) b.

(** [np.argwhere(b == 0)]: the index pairs of the zero cells, in row-major
    order. *)
Definition argwhere_row (i : nat) (row : list Z) : list (Z * Z) :=
  omap id (imap (λ j x, if x =? 0 then Some (Z.of_nat i, Z.of_nat j) else None) row).
Definition np_argwhere_zero (b : ndarray) : list (Z * Z) :=
  concat (imap argwhere_row b).

(** [range(3)] and [any([...])]. *)
Definition range (n : nat) : list nat := seq 0 n.
Definition any (l : list bool) : bool := existsb id l.

(** ** The world: a heap of arrays and the attributes of [self] *)

Abbreviation loc := nat.

Record world := World {
  heap : list ndarray;       (* every array allocated so far, by location *)
  board : loc;               (* self.board *)
  current_player : Z;        (* self.current_player *)
  done : bool;               (* self.done *)
  rng : nat → nat            (* numpy's global generator: its draws to come *)
}.

Inductive exn := IndexError | ValueError.

(** What running a method gives: a value, a raised exception, or [Stuck] when
    the world is not one a Python run can be in ([self.board] dangling). *)
Inductive outcome (A : Type) :=
| Ret (a : A) (σ : world)
| Raise (e : exn) (σ : world)
| Stuck.
Arguments Ret {A} a σ.
Arguments Raise {A} e σ.
Arguments Stuck {A}.

Definition M (A : Type) : Type := world → outcome A.

#[global] Instance M_ret : MRet M := λ A a σ, Ret a σ.
#[global] Instance M_bind : MBind M := λ A B f m σ,
  match m σ with
  | Ret a σ' => f a σ'
  | Raise e σ' => Raise e σ'
  | Stuck => Stuck
  end.

Definition raise {A} (e : exn) : M A := λ σ, Raise e σ.

(** An operation of numpy that can raise [e]. *)
Definition lift {A} (e : exn) (o : option A) : M A :=
  match o with Some a => mret a | None => raise e end.

Definition get_done : M bool := λ σ, Ret (done σ) σ.
Definition set_done (d : bool) : M unit := λ σ,
  Ret () (World (heap σ) (board σ) (current_player σ) d (rng σ)).
Definition get_current_player : M Z := λ σ, Ret (current_player σ) σ.
Definition set_current_player (p : Z) : M unit := λ σ,
  Ret () (World (heap σ) (board σ) p (done σ) (rng σ)).
Definition set_board (l : loc) : M unit := λ σ,
  Ret () (World (heap σ) l (current_player σ) (done σ) (rng σ)).

(** A new array object. *)
Definition alloc (a : ndarray) : M loc := λ σ,
  Ret (length (heap σ))
      (World (heap σ ++ [a]) (board σ) (current_player σ) (done σ) (rng σ)).

(** The array [self.board] refers to. *)
Definition read_board : M ndarray := λ σ,
  match heap σ !! board σ with
  | Some b => Ret b σ
  | None => Stuck
  end.

(** In-place update of the array [self.board] refers to. *)
Definition write_board (b : ndarray) : M unit := λ σ,
  Ret () (World (<[board σ := b]> (heap σ)) (board σ) (current_player σ) (done σ)
            (rng σ)).

(** [np.random.choice(n)]: a number below [n], decided by the state of the
    global generator, which advances.  The generator is an arbitrary stream
    of draws, each brought into range; [n = 0] is numpy's ValueError. *)
Definition np_random_choice (n : nat) : M nat := λ σ,
  if decide (n = 0%nat) then Raise ValueError σ
  else Ret (rng σ 0%nat `mod` n)%nat
           (World (heap σ) (board σ) (current_player σ) (done σ) (λ k, rng σ (S k))).

(** [self.board[row, col]] *)
Definition board_getitem (row col : Z) : M Z :=
  b ← read_board; lift IndexError (getitem b row col).

(** [self.board[row, col] = v] *)
Definition board_setitem (row col v : Z) : M unit :=
  b ← read_board; b' ← lift IndexError (setitem b row col v); write_board b'.

(** [self.board.copy()] *)
Definition board_copy : M loc := b ← read_board; alloc b.

(** [(self.board != 0).all()] and [np.argwhere(self.board == 0)] *)
Definition board_all_nonzero : M bool :=
  b ← read_board; mret (np_all_nonzero b).
Definition board_argwhere_zero : M (list (Z * Z)) :=
  b ← read_board; mret (np_argwhere_zero b).

(** ** The methods *)

(** The tuple [step] returns. *)
Record StepReturn := StepRet {
  obs : loc;
  reward : float;
  terminated : bool;
  truncated : bool;
  info : gmap string bool
}.

(** [_is_win(self, player)] *)
Definition is_win_array (b : ndarray) (player : Z) : bool :=
  any ((λ i, np_all_eq (row_slice b i) player) <$> range 3)
  || any ((λ j, np_all_eq (col_slice b j) player) <$> range 3)
  || (np_all_eq (np_diag b) player || np_all_eq (np_diag (np_fliplr b)) player).

Definition _is_win (player : Z) : M bool :=
  b ← read_board; mret (is_win_array b player).

(** [reset(self)]; [super().reset(seed=seed)] seeds the generator gymnasium
    keeps for the environment, which this class never draws from. *)
Definition reset : M (loc * gmap string bool) :=
  l ← alloc (np_zeros 3 3);
  set_board l;;
  set_current_player 1;;
  set_done false;;
  o ← board_copy;
  mret (o, ∅).

(** [__init__(self)]: the attributes of the new object do not exist before
    [reset] assigns them, so the world before is given by its heap and the
    generator alone. *)
Definition __init__ (h : list ndarray) (g : nat → nat) :
    outcome (loc * gmap string bool) :=
  reset (World h 0%nat 0 false g).

(** [return self.board.copy(), reward, self.done, False, info] *)
Definition returning (reward : float) (info : gmap string bool) : M StepReturn :=
  o ← board_copy;
  d ← get_done;
  mret (StepRet o reward d false info).

(** [step(self, action)] *)
Definition step (action : Z) : M StepReturn :=
  let '(row, col) := divmod action 3 in
  let reward := 0%float in
  let info : gmap string bool := ∅ in
  d ← get_done;
  invalid ← (if d : bool then mret true
             else v ← board_getitem row col; mret (negb (v =? 0)));
  if invalid : bool then
    set_done true;;
    let reward := (-1)%float in
    let info := <["invalid_move" := true]> info in
    returning reward info
  else
    p ← get_current_player;
    board_setitem row col p;;
    p ← get_current_player;
    won ← _is_win p;
    if won : bool then
      set_done true;;
      let reward := 1%float in
      returning reward info
    else
      full ← board_all_nonzero;
      if full : bool then
        set_done true;;
        let reward := 0%float in
        returning reward info
      else
        p ← get_current_player;
        set_current_player (if p =? 1 then 2 else 1);;
        p ← get_current_player;
        if p =? 2 then
          empty ← board_argwhere_zero;
          if negb (length empty =? 0)%nat then
            idx ← np_random_choice (length empty);
            '(opp_row, opp_col) ← lift IndexError (empty !! idx);
            board_setitem opp_row opp_col 2;;
            won ← _is_win 2;
            if won : bool then
              set_done true;;
              let reward := (-1)%float in
              returning reward info
            else
              full ← board_all_nonzero;
              if full : bool then
                set_done true;;
                let reward := 0%float in
                returning reward info
              else
                set_current_player 1;;
                returning reward info
          else
            set_current_player 1;;
            returning reward info
        else
          returning reward info.

(** ** The vocabulary of the specification *)

(** The mark at row [r], column [c]; 0 is Empty, 1 PlayerA, 2 PlayerB. *)
Definition cell (b : ndarray) (r c : nat) : option Z := b !! r ≫= λ row, row !! c.

(** An action decodes to row = action / 3, column = action mod 3. *)
Definition decode (action : Z) : nat * nat :=
  (Z.to_nat (action `div` 3), Z.to_nat (action `mod` 3)).

(** The board [b] with mark [v] put at row [r], column [c]. *)
Definition mark (b : ndarray) (r c : nat) (v : Z) : ndarray :=
  alter (λ row, <[c := v]> row) r b.

(** Following the spec's words: isWin(player) is true iff some row has all
    three cells equal to player, or some column has, or the main diagonal
    (0,0)-(1,1)-(2,2) has, or the anti-diagonal (0,2)-(1,1)-(2,0) has. *)
Definition spec_isWin (b : ndarray) (player : Z) : Prop :=
  (∃ i, (i < 3)%nat ∧ ∀ j, (j < 3)%nat → cell b i j = Some player)
  ∨ (∃ j, (j < 3)%nat ∧ ∀ i, (i < 3)%nat → cell b i j = Some player)
  ∨ (cell b 0 0 = Some player ∧ cell b 1 1 = Some player ∧ cell b 2 2 = Some player)
  ∨ (cell b 0 2 = Some player ∧ cell b 1 1 = Some player ∧ cell b 2 0 = Some player).

(** All 9 cells are non-Empty. *)
Definition all_nonempty (b : ndarray) : Prop :=
  ∀ i j, (i < 3)%nat → (j < 3)%nat → ∃ v, cell b i j = Some v ∧ v ≠ 0.

(** How many cells of [b] hold mark [v]. *)
Definition count_marks (b : ndarray) (v : Z) : nat :=
  length (filter (λ x, x = v) (concat b)).

(** The environment's board in world [σ] is the array [b]. *)
Definition board_is (σ : world) (b : ndarray) : Prop :=
  heap σ !! board σ = Some b ∧ shape33 b.

(** A non-terminal state with board [b], the agent (PlayerA) to move. *)
Definition playing (σ : world) (b : ndarray) : Prop :=
  board_is σ b ∧ done σ = false ∧ current_player σ = 1.

(** A legal action: in [0, 8] and decoding to an Empty cell. *)
Definition legal (b : ndarray) (action : Z) : Prop :=
  0 ≤ action ≤ 8 ∧ cell b (decode action).1 (decode action).2 = Some 0.

(** The board after PlayerA's mark is placed at the cell [action] decodes to. *)
Definition agent_move (b : ndarray) (action : Z) : ndarray :=
  mark b (decode action).1 (decode action).2 1.

(** A call took world [σ] to [σ'] and returned the observation [o]:
    [self.board] is still the same array object and now holds [b'], the
    observation is another array that holds [b'] too, and no array other than
    the board's was changed. *)
Definition observed (σ σ' : world) (o : loc) (b' : ndarray) : Prop :=
  board σ' = board σ
  ∧ heap σ' !! board σ' = Some b'
  ∧ heap σ' !! o = Some b'
  ∧ o ≠ board σ'
  ∧ heap σ !! o = None
  ∧ ∀ k x, k ≠ board σ → heap σ !! k = Some x → heap σ' !! k = Some x.

(** The world [σ] with [g] for numpy's global generator. *)
Definition with_rng (σ : world) (g : nat → nat) : world :=
  World (heap σ) (board σ) (current_player σ) (done σ) g.

(** ** The worlds a run can be in *)

(** [self.board] refers to an array of shape (3, 3), and while the episode
    runs it is the agent's turn. *)
Definition wf (σ : world) : Prop :=
  (∃ b, board_is σ b) ∧ (done σ = false → current_player σ = 1).

(** The worlds after construction and any sequence of calls of [reset] and
    [step]; a caller may catch what [step] raises and go on. *)
Inductive reachable : world → Prop :=
| reach_init h g r σ :
    __init__ h g = Ret r σ → reachable σ
| reach_reset σ r σ' :
    reachable σ → reset σ = Ret r σ' → reachable σ'
| reach_step σ a r σ' :
    reachable σ → step a σ = Ret r σ' → reachable σ'
| reach_step_raise σ a e σ' :
    reachable σ → step a σ = Raise e σ' → reachable σ'.

(** A running episode with board [b], the only array of the heap, and a
    generator whose draws are all [n]. *)
Definition world_of (b : ndarray) (n : nat) : world :=
  World [b] 0%nat 1 false (λ _, n).

(** The world just after [TicTacToeEnv()] in an empty heap, with a
    generator whose draws are all [n]. *)
Definition fresh_world (n : nat) : world :=
  World [np_zeros 3 3; np_zeros 3 3] 0%nat 1 false (λ _, n).

(** ** Rendering *)

(** The end of a printed line. *)
Definition newline : string := String (Ascii.ascii_of_nat 10) "".

(** [chars = {0: ".", 1: "X", 2: "O"}] *)
Definition chars : gmap Z string := {[ 0 := "."; 1 := "X"; 2 := "O" ]}.

(** [[chars[v] for v in row]]: the glyphs of a row, or the first key that
    [chars] does not have (Python's KeyError). *)
Fixpoint row_chars (row : list Z) : Z + list string :=
  match row with
  | [] => inr []
  | v :: row' =>
      match chars !! v with
      | None => inl v
      | Some s =>
          match row_chars row' with
          | inl k => inl k
          | inr cs => inr (s :: cs)
          end
      end
  end.

(** [sep.join(l)] *)
Fixpoint str_join (sep : string) (l : list string) : string :=
  match l with
  | [] => ""
  | [s] => s
  | s :: l' => s +:+ sep +:+ str_join sep l'
  end.

(** How [render] ends, with what it has written to standard output. *)
Inductive rendered :=
| Printed (stdout : string)
| KeyError (stdout : string) (key : Z).

(** The loop [for row in self.board: print(" ".join(...))] and the closing
    [print()]; [stdout] is what has been written so far. *)
Fixpoint render_rows (rows : ndarray) (stdout : string) : rendered :=
  match rows with
  | [] => Printed (stdout +:+ newline)
  | row :: rows' =>
      match row_chars row with
      | inl k => KeyError stdout k
      | inr cs => render_rows rows' (stdout +:+ str_join " " cs +:+ newline)
      end
  end.

(** [render(self, mode='human')] *)
Definition render : M rendered :=
  b ← read_board; mret (render_rows b "").

(** ** Further vocabulary *)

(** Every cell holds 0, 1 or 2, the bounds of [observation_space]. *)
Definition valid_marks (b : ndarray) : Prop :=
  Forall (Forall (λ x, 0 ≤ x ≤ 2)) b.

(** The glyph [render] shows for a mark, and a row as [render] prints it. *)
Definition glyph (v : Z) : string := default "" (chars !! v).
Definition row_line (row : list Z) : string :=
  str_join " " (glyph <$> row) +:+ newline.

(** The board seen in a mirror ([b[::-1]]) and across the main diagonal
    ([b.T]); with [np_fliplr] they generate the symmetries of the square. *)
Definition np_flipud (b : ndarray) : ndarray := reverse b.
Definition np_transpose (b : ndarray) : ndarray := (λ j, col_slice b j) <$> seq 0 3.

(** The worlds [k] returned calls of [step] after a [reset] (or after
    construction, which ends in [reset]). *)
Inductive episode : nat → world → Prop :=
| episode_reset σ0 r σ :
    reset σ0 = Ret r σ → episode 0 σ
| episode_step k σ a r σ' :
    episode k σ → step a σ = Ret r σ' → episode (S k) σ'.

(** What holds of the board [b] of a world [k] calls of [step] into an
    episode. *)
Definition episode_inv (k : nat) (σ : world) (b : ndarray) : Prop :=
  board_is σ b
  ∧ valid_marks b
  ∧ (current_player σ = 1 ∨ (current_player σ = 2 ∧ done σ = true))
  ∧ (count_marks b 2 ≤ count_marks b 1 ≤ count_marks b 2 + 1)%nat
  ∧ ¬ (spec_isWin b 1 ∧ spec_isWin b 2)
  ∧ (done σ = false →
     count_marks b 1 = k ∧ count_marks b 2 = k
     ∧ ¬ spec_isWin b 1 ∧ ¬ spec_isWin b 2 ∧ ¬ all_nonempty b).

(** What [render] prints for rows, and for the board [b]: its rows, then an
    empty line. *)
Definition rows_text (rows : ndarray) : string :=
  foldr (λ row s, row_line row +:+ s) "" rows.
Definition board_text (b : ndarray) : string := rows_text b +:+ newline.

(** The worlds that calls of [step] and [reset] lead to from [σ]. *)
Inductive later : world → world → Prop :=
| later_now σ : later σ σ
| later_step σ a r σ1 σ' :
    step a σ = Ret r σ1 → later σ1 σ' → later σ σ'
| later_reset σ r σ1 σ' :
    reset σ = Ret r σ1 → later σ1 σ' → later σ σ'.

(** The world after the calls [step a] for the actions [a] of [l] in turn,
    up to the first that does not return. *)
Fixpoint play (l : list Z) (σ : world) : world :=
  match l with
  | [] => σ
  | a :: l' =>
      match step a σ with
      | Ret _ σ' => play l' σ'
      | _ => σ
      end
  end.

(** ** Boards of shape (3, 3) *)

Lemma shape33_inv (b : ndarray) :
  shape33 b →
  ∃ a0 a1 a2 a3 a4 a5 a6 a7 a8,
    b = [[a0; a1; a2]; [a3; a4; a5]; [a6; a7; a8]].
Proof.
  intros [Hl Hr].
  destruct b as [|r0 [|r1 [|r2 [|]]]]; try discriminate.
  apply Forall_cons in Hr as [H0 Hr].
  apply Forall_cons in Hr as [H1 Hr].
  apply Forall_cons in Hr as [H2 _].
  destruct r0 as [|? [|? [|? [|]]]]; try discriminate.
  destruct r1 as [|? [|? [|? [|]]]]; try discriminate.
  destruct r2 as [|? [|? [|? [|]]]]; try discriminate.
  by repeat eexists.
Qed.

Lemma shape33_intro (a0 a1 a2 a3 a4 a5 a6 a7 a8 : Z) :
  shape33 [[a0; a1; a2]; [a3; a4; a5]; [a6; a7; a8]].
Proof. split; [done | by repeat constructor]. Qed.

Lemma np_zeros_shape : shape33 (np_zeros 3 3).
Proof. apply shape33_intro. Qed.

Ltac board_cells b H :=
  let a0 := fresh "a" in let a1 := fresh "a" in let a2 := fresh "a" in
  let a3 := fresh "a" in let a4 := fresh "a" in let a5 := fresh "a" in
  let a6 := fresh "a" in let a7 := fresh "a" in let a8 := fresh "a" in
  destruct (shape33_inv b H) as (a0 & a1 & a2 & a3 & a4 & a5 & a6 & a7 & a8 & ->).

Ltac below3 i H :=
  destruct i as [|[|[|i]]]; [ | | | exfalso; clear - H; lia ].

(** ** Indexing, assignment and search on boards *)

Lemma norm_index_nat (n i : nat) : (i < n)%nat → norm_index n (Z.of_nat i) = Some i.
Proof.
  intros H. unfold norm_index. rewrite decide_True by lia. by rewrite Nat2Z.id.
Qed.

Lemma getitem_cell (b : ndarray) (i j : nat) :
  is_Some (cell b i j) → getitem b (Z.of_nat i) (Z.of_nat j) = cell b i j.
Proof.
  unfold cell, getitem. intros [v H].
  destruct (b !! i) as [row|] eqn:Hr; [|done]. simpl in H.
  rewrite norm_index_nat by (by eapply lookup_lt_Some). simpl. rewrite Hr. simpl.
  rewrite norm_index_nat by (by eapply lookup_lt_Some). done.
Qed.

Lemma setitem_cell (b : ndarray) (i j : nat) (v : Z) :
  is_Some (cell b i j) → setitem b (Z.of_nat i) (Z.of_nat j) v = Some (mark b i j v).
Proof.
  unfold cell, setitem, mark. intros [v0 H].
  destruct (b !! i) as [row|] eqn:Hr; [|done]. simpl in H.
  rewrite norm_index_nat by (by eapply lookup_lt_Some). simpl. rewrite Hr. simpl.
  rewrite norm_index_nat by (by eapply lookup_lt_Some). simpl. f_equal.
  apply list_eq. intros k. rewrite list_lookup_alter.
  destruct (decide (i = k)) as [->|Hne].
  - rewrite list_lookup_insert_eq by (by eapply lookup_lt_Some). by rewrite Hr.
  - by rewrite list_lookup_insert_ne.
Qed.

Lemma cell_mark (b : ndarray) (r c : nat) (v : Z) (i j : nat) :
  cell (mark b r c v) i j =
  if decide (i = r ∧ j = c) then (λ _, v) <$> cell b r c else cell b i j.
Proof.
  unfold cell, mark. rewrite list_lookup_alter.
  destruct (decide (r = i)) as [->|Hne].
  - destruct (b !! i) as [row|]; simpl.
    + destruct (decide (j = c)) as [->|Hc].
      * rewrite decide_True by done.
        destruct (row !! c) eqn:Hc.
        -- rewrite list_lookup_insert_eq by (by eapply lookup_lt_Some). done.
        -- simpl. apply list_lookup_insert_None. done.
      * rewrite decide_False by tauto. by rewrite list_lookup_insert_ne.
    + by case_decide.
  - rewrite decide_False; [done|]. intros [-> _]. done.
Qed.

Lemma shape33_mark (b : ndarray) (r c : nat) (v : Z) :
  shape33 b → shape33 (mark b r c v).
Proof.
  intros [Hl Hr]. split.
  - unfold mark. by rewrite length_alter.
  - unfold mark. apply Forall_alter; [done|]. intros row _ H. by rewrite length_insert.
Qed.

Lemma decode_range (a : Z) :
  0 ≤ a ≤ 8 →
  ((decode a).1 < 3)%nat ∧ ((decode a).2 < 3)%nat ∧
  a `div` 3 = Z.of_nat (decode a).1 ∧ a `mod` 3 = Z.of_nat (decode a).2.
Proof.
  intros H. unfold decode. simpl.
  pose proof (Z.mod_pos_bound a 3 ltac:(lia)).
  assert (0 ≤ a `div` 3 < 3) by (split; [apply Z.div_pos; lia | apply Z.div_lt_upper_bound; lia]).
  lia.
Qed.

Lemma cell_shape33 (b : ndarray) (i j : nat) :
  shape33 b → (i < 3)%nat → (j < 3)%nat → is_Some (cell b i j).
Proof.
  intros Hs Hi Hj. board_cells b Hs. below3 i Hi; below3 j Hj; by eexists.
Qed.

Lemma elem_of_argwhere (b : ndarray) (r c : Z) :
  (r, c) ∈ np_argwhere_zero b ↔
  ∃ i j, r = Z.of_nat i ∧ c = Z.of_nat j ∧ cell b i j = Some 0.
Proof.
  unfold np_argwhere_zero, argwhere_row, cell.
  rewrite list_elem_of_In, in_concat. setoid_rewrite <- list_elem_of_In.
  split.
  - intros (l & Hl & Hrc).
    apply elem_of_lookup_imap in Hl as (i & row & -> & Hrow).
    apply list_elem_of_omap in Hrc as (o & Ho & Heq).
    apply elem_of_lookup_imap in Ho as (j & x & -> & Hx).
    simpl in Heq. destruct (Z.eqb_spec x 0); simplify_eq.
    exists i, j. rewrite Hrow. simpl. done.
  - intros (i & j & -> & -> & H).
    destruct (b !! i) as [row|] eqn:Hrow; [|done]. simpl in H.
    eexists. split.
    + eapply elem_of_lookup_imap_2. done.
    + apply list_elem_of_omap. exists (Some (Z.of_nat i, Z.of_nat j)). split; [|done].
      apply elem_of_lookup_imap. exists j, 0. split; [done|done].
Qed.

Lemma np_all_nonzero_spec (b : ndarray) :
  shape33 b → np_all_nonzero b = true ↔ all_nonempty b.
Proof.
  intros Hs. board_cells b Hs. unfold np_all_nonzero, all_nonempty, cell. simpl.
  rewrite !andb_true_r, !andb_true_iff, !negb_true_iff, !Z.eqb_neq.
  split.
  - intros H i j Hi Hj. below3 i Hi; below3 j Hj; simpl; eexists; (split; [done|tauto]).
  - intros H.
    repeat split.
    + destruct (H 0 0)%nat as (? & [= <-] & ?); [lia..|done].
    + destruct (H 0 1)%nat as (? & [= <-] & ?); [lia..|done].
    + destruct (H 0 2)%nat as (? & [= <-] & ?); [lia..|done].
    + destruct (H 1 0)%nat as (? & [= <-] & ?); [lia..|done].
    + destruct (H 1 1)%nat as (? & [= <-] & ?); [lia..|done].
    + destruct (H 1 2)%nat as (? & [= <-] & ?); [lia..|done].
    + destruct (H 2 0)%nat as (? & [= <-] & ?); [lia..|done].
    + destruct (H 2 1)%nat as (? & [= <-] & ?); [lia..|done].
    + destruct (H 2 2)%nat as (? & [= <-] & ?); [lia..|done].
Qed.

Lemma np_all_nonzero_false (b : ndarray) :
  np_all_nonzero b = false → ∃ i j, cell b i j = Some 0.
Proof.
  unfold np_all_nonzero, cell. intros H.
  induction b as [|row b IH]; [done|].
  simpl in H. apply andb_false_iff in H as [H|H].
  - exists 0%nat. simpl.
    clear IH. induction row as [|x row IH]; [done|].
    simpl in H. apply andb_false_iff in H as [H|H].
    + exists 0%nat. simpl. apply negb_false_iff, Z.eqb_eq in H. by subst.
    + destruct (IH H) as [j Hj]. by exists (S j).
  - destruct (IH H) as (i & j & Hij). by exists (S i), j.
Qed.

Lemma np_argwhere_zero_nonempty (b : ndarray) :
  np_all_nonzero b = false → np_argwhere_zero b ≠ [].
Proof.
  intros H. apply np_all_nonzero_false in H as (i & j & H).
  assert ((Z.of_nat i, Z.of_nat j) ∈ np_argwhere_zero b) as Hin.
  { apply elem_of_argwhere. by exists i, j. }
  intros Hnil. rewrite Hnil in Hin. by apply not_elem_of_nil in Hin.
Qed.

(** Whatever the generator draws, [empty[idx]] is an Empty cell. *)
Lemma argwhere_choice (b : ndarray) (n : nat) :
  np_all_nonzero b = false →
  ∃ i j, np_argwhere_zero b !! (n `mod` length (np_argwhere_zero b))%nat
           = Some (Z.of_nat i, Z.of_nat j)
         ∧ cell b i j = Some 0.
Proof.
  intros H. apply np_argwhere_zero_nonempty in H.
  assert (length (np_argwhere_zero b) ≠ 0%nat) as Hn.
  { by destruct (np_argwhere_zero b). }
  destruct (lookup_lt_is_Some_2 (np_argwhere_zero b)
              (n `mod` length (np_argwhere_zero b))%nat) as [[r c] Hrc].
  { by apply Nat.mod_upper_bound. }
  pose proof (list_elem_of_lookup_2 _ _ _ Hrc) as Hin.
  apply elem_of_argwhere in Hin as (i & j & -> & -> & Hc).
  by exists i, j.
Qed.

(** Every Empty cell is the generator's choice for some draw. *)
Lemma argwhere_choice_any (b : ndarray) (i j : nat) :
  cell b i j = Some 0 →
  ∃ n, np_argwhere_zero b !! (n `mod` length (np_argwhere_zero b))%nat
         = Some (Z.of_nat i, Z.of_nat j).
Proof.
  intros H.
  assert ((Z.of_nat i, Z.of_nat j) ∈ np_argwhere_zero b) as Hin.
  { apply elem_of_argwhere. by exists i, j. }
  apply list_elem_of_lookup_1 in Hin as [n Hn].
  exists n. rewrite Nat.mod_small; [done|]. by eapply lookup_lt_Some.
Qed.


(** ** Running the methods *)

Ltac run :=
  unfold returning, board_copy, board_getitem, board_setitem, board_all_nonzero,
    board_argwhere_zero, _is_win, write_board, read_board, np_random_choice,
    mbind, M_bind;
  simpl.

Ltac at_board :=
  simpl; rewrite ?list_insert_insert_eq; rewrite ?list_lookup_insert_eq by done; simpl.

Lemma reset_run (σ : world) :
  reset σ =
    Ret (S (length (heap σ)), ∅)
        (World (heap σ ++ [np_zeros 3 3; np_zeros 3 3]) (length (heap σ)) 1 false (rng σ)).
Proof.
  destruct σ as [h l p d g]. unfold reset. run.
  rewrite lookup_app_r by done. rewrite Nat.sub_diag. simpl.
  rewrite length_app. simpl. rewrite Nat.add_1_r.
  by rewrite <- app_assoc.
Qed.

Lemma step_invalid σ b a :
  heap σ !! board σ = Some b →
  (done σ = true ∨ ∃ v, getitem b (a `div` 3) (a `mod` 3) = Some v ∧ v ≠ 0) →
  step a σ =
    Ret (StepRet (length (heap σ)) (-1)%float true false (<["invalid_move" := true]> ∅))
        (World (heap σ ++ [b]) (board σ) (current_player σ) true (rng σ)).
Proof.
  destruct σ as [h l p d g]. simpl. intros Hb H.
  unfold step. simpl. run.
  destruct d; simpl.
  - run. by rewrite Hb.
  - destruct H as [?|(v & Hg & Hv)]; [done|].
    rewrite Hb, Hg. simpl. apply Z.eqb_neq in Hv. rewrite Hv. simpl.
    by rewrite Hb.
Qed.

Lemma step_index_error σ b a :
  heap σ !! board σ = Some b → done σ = false →
  getitem b (a `div` 3) (a `mod` 3) = None →
  step a σ = Raise IndexError σ.
Proof.
  destruct σ as [h l p d g]. simpl. intros Hb -> Hg.
  unfold step. simpl. run. by rewrite Hb, Hg.
Qed.

Lemma step_agent_ends σ b a b1 :
  heap σ !! board σ = Some b → done σ = false →
  getitem b (a `div` 3) (a `mod` 3) = Some 0 →
  setitem b (a `div` 3) (a `mod` 3) (current_player σ) = Some b1 →
  is_win_array b1 (current_player σ) || np_all_nonzero b1 = true →
  step a σ =
    Ret (StepRet (length (heap σ))
                 (if is_win_array b1 (current_player σ) then 1 else 0)%float
                 true false ∅)
        (World (<[board σ := b1]> (heap σ) ++ [b1]) (board σ) (current_player σ) true
               (rng σ)).
Proof.
  destruct σ as [h l p d g]. simpl. intros Hb -> Hg Hs Hend.
  assert (Hl : (l < length h)%nat) by (by eapply lookup_lt_Some).
  unfold step. simpl. run. rewrite Hb, Hg. simpl. rewrite Hb, Hs. simpl.
  at_board. simpl.
  destruct (is_win_array b1 p); simpl in *.
  - at_board. simpl. by rewrite length_insert.
  - at_board. simpl. rewrite Hend. simpl. at_board. simpl. by rewrite length_insert.
Qed.

Lemma step_opponent σ b a b1 r' c' b2 :
  heap σ !! board σ = Some b → done σ = false → current_player σ = 1 →
  getitem b (a `div` 3) (a `mod` 3) = Some 0 →
  setitem b (a `div` 3) (a `mod` 3) 1 = Some b1 →
  is_win_array b1 1 = false → np_all_nonzero b1 = false →
  np_argwhere_zero b1 !! (rng σ 0%nat `mod` length (np_argwhere_zero b1))%nat
    = Some (r', c') →
  setitem b1 r' c' 2 = Some b2 →
  step a σ =
    let over := is_win_array b2 2 || np_all_nonzero b2 in
    Ret (StepRet (length (heap σ)) (if is_win_array b2 2 then -1 else 0)%float
                 over false ∅)
        (World (<[board σ := b2]> (heap σ) ++ [b2]) (board σ) (if over then 2 else 1)
               over (λ k, rng σ (S k))).
Proof.
  destruct σ as [h l p d g]. simpl. intros Hb -> -> Hg Hs Hw Hf Hi Hs2.
  assert (Hl : (l < length h)%nat) by (by eapply lookup_lt_Some).
  assert (Hn : length (np_argwhere_zero b1) ≠ 0%nat).
  { apply np_argwhere_zero_nonempty in Hf. by destruct (np_argwhere_zero b1). }
  unfold step. simpl. run. rewrite Hb, Hg. simpl. rewrite Hb, Hs. simpl.
  at_board. simpl. rewrite Hw. at_board. simpl. rewrite Hf. at_board. simpl.
  apply Nat.eqb_neq in Hn as Hn'. rewrite Hn'. simpl.
  rewrite decide_False by done. rewrite Hi. simpl.
  at_board. rewrite Hs2. simpl. at_board. simpl.
  destruct (is_win_array b2 2); simpl.
  { at_board. simpl. by rewrite length_insert. }
  at_board. destruct (np_all_nonzero b2); simpl.
  all: at_board; simpl; by rewrite length_insert.
Qed.

(** ** Decoding an action *)

Lemma getitem_decode (b : ndarray) (a : Z) :
  shape33 b → 0 ≤ a ≤ 8 →
  getitem b (a `div` 3) (a `mod` 3) = cell b (decode a).1 (decode a).2
  ∧ is_Some (cell b (decode a).1 (decode a).2).
Proof.
  intros Hs Ha. destruct (decode_range a Ha) as (Hr & Hc & -> & ->).
  pose proof (cell_shape33 b _ _ Hs Hr Hc) as Hsome.
  split; [by apply getitem_cell | done].
Qed.

Lemma setitem_decode (b : ndarray) (a v : Z) :
  shape33 b → 0 ≤ a ≤ 8 →
  setitem b (a `div` 3) (a `mod` 3) v = Some (mark b (decode a).1 (decode a).2 v).
Proof.
  intros Hs Ha. destruct (decode_range a Ha) as (Hr & Hc & -> & ->).
  apply setitem_cell. by apply cell_shape33.
Qed.

Lemma norm_index_wrap (i : Z) :
  -3 ≤ i < 0 → norm_index 3 i = norm_index 3 (i + 3).
Proof.
  intros H. unfold norm_index.
  rewrite (decide_False (P := 0 ≤ i < _)) by lia.
  rewrite (decide_True (P := _ ≤ i < 0)) by lia.
  rewrite (decide_True (P := 0 ≤ i + 3 < _)) by lia.
  done.
Qed.

Lemma divmod_wrap (a : Z) :
  (a + 9) `div` 3 = a `div` 3 + 3 ∧ (a + 9) `mod` 3 = a `mod` 3.
Proof.
  split.
  - replace (a + 9) with (a + 3 * 3) by lia. rewrite Z.div_add by lia. done.
  - replace (a + 9) with (a + 3 * 3) by lia. by rewrite Z_mod_plus_full.
Qed.

Lemma getitem_wrap (b : ndarray) (a : Z) :
  shape33 b → -9 ≤ a ≤ -1 →
  getitem b (a `div` 3) (a `mod` 3) = getitem b ((a + 9) `div` 3) ((a + 9) `mod` 3).
Proof.
  intros [Hl _] Ha. destruct (divmod_wrap a) as [-> ->].
  unfold getitem. rewrite Hl. rewrite norm_index_wrap; [done|].
  split; [apply Z.div_le_lower_bound; lia | apply Z.div_lt_upper_bound; lia].
Qed.

Lemma setitem_wrap (b : ndarray) (a v : Z) :
  shape33 b → -9 ≤ a ≤ -1 →
  setitem b (a `div` 3) (a `mod` 3) v = setitem b ((a + 9) `div` 3) ((a + 9) `mod` 3) v.
Proof.
  intros [Hl _] Ha. destruct (divmod_wrap a) as [-> ->].
  unfold setitem. rewrite Hl. rewrite norm_index_wrap; [done|].
  split; [apply Z.div_le_lower_bound; lia | apply Z.div_lt_upper_bound; lia].
Qed.

Lemma getitem_out_of_range (b : ndarray) (a : Z) :
  shape33 b → ¬ (-9 ≤ a ≤ 8) → getitem b (a `div` 3) (a `mod` 3) = None.
Proof.
  intros [Hl _] Ha. unfold getitem. rewrite Hl.
  assert (¬ (-3 ≤ a `div` 3 < 3)) as Hr.
  { intros [H1 H2]. apply Ha. split.
    - pose proof (Z.mul_div_le a 3 ltac:(lia)).
      pose proof (Z.mod_pos_bound a 3 ltac:(lia)).
      pose proof (Z.div_mod a 3 ltac:(lia)). lia.
    - pose proof (Z.mod_pos_bound a 3 ltac:(lia)).
      pose proof (Z.div_mod a 3 ltac:(lia)). lia. }
  unfold norm_index. rewrite !decide_False by lia. done.
Qed.

(** A negative action in [-9, -1] runs exactly as the action 9 above it. *)
Lemma step_wrap (σ : world) (b : ndarray) (a : Z) :
  heap σ !! board σ = Some b → shape33 b → -9 ≤ a ≤ -1 →
  step a σ = step (a + 9) σ.
Proof.
  intros Hb Hs Ha. destruct σ as [h l p d g]. simpl in Hb.
  unfold step, divmod. destruct d; [done|].
  run. rewrite Hb. simpl. rewrite (getitem_wrap b a Hs Ha).
  destruct (getitem b _ _) as [v|]; [simpl|done].
  destruct (v =? 0); [simpl|done].
  rewrite Hb. simpl. by rewrite (setitem_wrap b a p Hs Ha).
Qed.

(** A legal move on a running episode: what [step] returns, by cases on
    the board after the agent's mark and after the opponent's; [(i, j)] is
    the cell the generator picks for the opponent. *)
Lemma step_legal (σ : world) (b : ndarray) (a : Z) :
  playing σ b → legal b a →
  let b1 := agent_move b a in
  if is_win_array b1 1 || np_all_nonzero b1 then
    step a σ =
      Ret (StepRet (length (heap σ)) (if is_win_array b1 1 then 1 else 0)%float
                   true false ∅)
          (World (<[board σ := b1]> (heap σ) ++ [b1]) (board σ) 1 true (rng σ))
  else
    ∃ i j,
      np_argwhere_zero b1 !! (rng σ 0%nat `mod` length (np_argwhere_zero b1))%nat
        = Some (Z.of_nat i, Z.of_nat j)
      ∧ cell b1 i j = Some 0
      ∧ let b2 := mark b1 i j 2 in
        let over := is_win_array b2 2 || np_all_nonzero b2 in
        step a σ =
          Ret (StepRet (length (heap σ)) (if is_win_array b2 2 then -1 else 0)%float
                       over false ∅)
              (World (<[board σ := b2]> (heap σ) ++ [b2]) (board σ)
                     (if over then 2 else 1) over (λ k, rng σ (S k))).
Proof.
  intros ((Hb & Hs) & Hd & Hp) (Ha & Hc). simpl.
  destruct (getitem_decode b a Hs Ha) as [Hg _]. rewrite Hc in Hg.
  pose proof (setitem_decode b a 1 Hs Ha) as Hset. fold (agent_move b a) in Hset.
  destruct (is_win_array (agent_move b a) 1 || np_all_nonzero (agent_move b a)) eqn:He.
  - pose proof (step_agent_ends σ b a (agent_move b a) Hb Hd Hg) as H.
    rewrite Hp in H. by apply H.
  - apply orb_false_iff in He as [Hw Hf].
    destruct (argwhere_choice (agent_move b a) (rng σ 0%nat) Hf) as (i & j & Hi & Hij).
    exists i, j. split; [done|]. split; [done|].
    apply (step_opponent σ b a _ _ _ _ Hb Hd Hp Hg Hset Hw Hf Hi).
    apply setitem_cell. by rewrite Hij.
Qed.

(** The opponent's cell was Empty before the agent moved, and is another
    cell than the agent's. *)
Lemma agent_move_empty (b : ndarray) (a : Z) (i j : nat) :
  is_Some (cell b (decode a).1 (decode a).2) →
  cell (agent_move b a) i j = Some 0 →
  cell b i j = Some 0 ∧ (i, j) ≠ decode a.
Proof.
  intros [v Hv] H. unfold agent_move in H. rewrite cell_mark in H.
  case_decide as Hd.
  - rewrite Hv in H. done.
  - split; [done|]. intros Heq. apply Hd. by rewrite <- Heq.
Qed.

Lemma observed_update (h : list ndarray) (l : loc) (b b' : ndarray)
    (p p' : Z) (d d' : bool) (g g' : nat → nat) :
  h !! l = Some b →
  observed (World h l p d g) (World (<[l := b']> h ++ [b']) l p' d' g') (length h) b'.
Proof.
  intros Hb. assert (Hl : (l < length h)%nat) by (by eapply lookup_lt_Some).
  unfold observed. simpl. repeat split.
  - rewrite lookup_app_l by (by rewrite length_insert).
    by apply list_lookup_insert_eq.
  - rewrite lookup_app_r by (by rewrite length_insert).
    by rewrite length_insert, Nat.sub_diag.
  - lia.
  - by apply lookup_ge_None.
  - intros k x Hk Hx. apply lookup_app_l_Some. by rewrite list_lookup_insert_ne.
Qed.

Lemma observed_same (h : list ndarray) (l : loc) (b : ndarray)
    (p p' : Z) (d d' : bool) (g g' : nat → nat) :
  h !! l = Some b →
  observed (World h l p d g) (World (h ++ [b]) l p' d' g') (length h) b.
Proof.
  intros Hb. rewrite <- (list_insert_id h l b Hb) at 2.
  by apply (observed_update h l b).
Qed.

(** ** Win detection *)

Lemma is_win_array_spec (b : ndarray) (player : Z) :
  shape33 b → is_win_array b player = true ↔ spec_isWin b player.
Proof.
  intros Hs. board_cells b Hs.
  unfold is_win_array, spec_isWin, any, np_all_eq, cell. simpl.
  rewrite !orb_false_r, !andb_true_r.
  rewrite !orb_true_iff, !andb_true_iff, !Z.eqb_eq.
  split.
  - intros [[[H|[H|H]]|[H|[H|H]]]|[H|H]].
    + left. exists 0%nat. split; [lia|]. intros j Hj. below3 j Hj; simpl; f_equal; tauto.
    + left. exists 1%nat. split; [lia|]. intros j Hj. below3 j Hj; simpl; f_equal; tauto.
    + left. exists 2%nat. split; [lia|]. intros j Hj. below3 j Hj; simpl; f_equal; tauto.
    + right; left. exists 0%nat. split; [lia|]. intros j Hj. below3 j Hj; simpl; f_equal; tauto.
    + right; left. exists 1%nat. split; [lia|]. intros j Hj. below3 j Hj; simpl; f_equal; tauto.
    + right; left. exists 2%nat. split; [lia|]. intros j Hj. below3 j Hj; simpl; f_equal; tauto.
    + right; right; left. repeat split; f_equal; tauto.
    + right; right; right. repeat split; f_equal; tauto.
  - intros [(i & Hi & H)|[(j & Hj & H)|[(H0 & H1 & H2)|(H0 & H1 & H2)]]].
    + pose proof (H 0%nat ltac:(lia)) as H0. pose proof (H 1%nat ltac:(lia)) as H1.
      pose proof (H 2%nat ltac:(lia)) as H2. clear H.
      below3 i Hi; simpl in *; simplify_eq; tauto.
    + pose proof (H 0%nat ltac:(lia)) as H0. pose proof (H 1%nat ltac:(lia)) as H1.
      pose proof (H 2%nat ltac:(lia)) as H2. clear H.
      below3 j Hj; simpl in *; simplify_eq; tauto.
    + simpl in *; simplify_eq; tauto.
    + simpl in *; simplify_eq; tauto.
Qed.

Lemma is_win_array_false (b : ndarray) (player : Z) :
  shape33 b → ¬ spec_isWin b player → is_win_array b player = false.
Proof.
  intros Hs H. apply not_true_iff_false. intros Hw. apply H.
  by apply is_win_array_spec.
Qed.

Lemma np_all_nonzero_not (b : ndarray) :
  shape33 b → ¬ all_nonempty b → np_all_nonzero b = false.
Proof.
  intros Hs H. apply not_true_iff_false. intros Hw. apply H.
  by apply np_all_nonzero_spec.
Qed.

Lemma not_spec_isWin (b : ndarray) (player : Z) :
  shape33 b → is_win_array b player = false → ¬ spec_isWin b player.
Proof.
  intros Hs H Hw. apply is_win_array_spec in Hw; [|done]. congruence.
Qed.

Lemma not_all_nonempty (b : ndarray) :
  shape33 b → np_all_nonzero b = false → ¬ all_nonempty b.
Proof.
  intros Hs H Hw. apply np_all_nonzero_spec in Hw; [|done]. congruence.
Qed.

(** The board after both marks, cell by cell. *)
Lemma cell_after_moves (b : ndarray) (a : Z) (i j i' j' : nat) :
  legal b a → cell (agent_move b a) i j = Some 0 →
  cell (mark (agent_move b a) i j 2) i' j' =
    if decide ((i', j') = (i, j)) then Some 2
    else if decide ((i', j') = decode a) then Some 1
    else cell b i' j'.
Proof.
  intros [Ha Hc] Hij. rewrite cell_mark, Hij. simpl.
  destruct (decide ((i', j') = (i, j))) as [[= -> ->]|Hne].
  - by rewrite decide_True.
  - rewrite decide_False by (intros [-> ->]; done).
    unfold agent_move. rewrite cell_mark, Hc. unfold decode. simpl.
    destruct (decide ((i', j') = _)) as [[= -> ->]|Hne'].
    + by rewrite decide_True.
    + rewrite decide_False; [done|]. by intros [-> ->].
Qed.

(** A running episode after a legal move that neither wins nor fills the
    board: the opponent answers at an Empty cell [(i, j)], and [step]
    returns by the state of the board after that. *)
Lemma step_reply (σ : world) (b : ndarray) (a : Z) :
  playing σ b → legal b a →
  ¬ spec_isWin (agent_move b a) 1 → ¬ all_nonempty (agent_move b a) →
  ∃ i j σ',
    np_argwhere_zero (agent_move b a)
      !! (rng σ 0%nat `mod` length (np_argwhere_zero (agent_move b a)))%nat
      = Some (Z.of_nat i, Z.of_nat j)
    ∧ cell (agent_move b a) i j = Some 0
    ∧ let b2 := mark (agent_move b a) i j 2 in
      let over := is_win_array b2 2 || np_all_nonzero b2 in
      step a σ = Ret (StepRet (length (heap σ))
                        (if is_win_array b2 2 then -1 else 0)%float over false ∅) σ'
      ∧ shape33 b2
      ∧ observed σ σ' (length (heap σ)) b2
      ∧ done σ' = over
      ∧ current_player σ' = (if over then 2 else 1)
      ∧ rng σ' = (λ k, rng σ (S k)).
Proof.
  intros Hp Hl Hw Hf. pose proof (step_legal σ b a Hp Hl) as H. simpl in H.
  destruct Hp as ((Hb & Hs) & Hd & Hp).
  assert (Hs1 : shape33 (agent_move b a)) by (by apply shape33_mark).
  rewrite (is_win_array_false _ _ Hs1 Hw), (np_all_nonzero_not _ Hs1 Hf) in H.
  simpl in H. destruct H as (i & j & Hi & Hij & H).
  exists i, j. eexists. split; [done|]. split; [done|]. simpl.
  split; [exact H|]. split; [by apply shape33_mark|].
  split; [|done]. destruct σ as [h l p d g]. by apply (observed_update h l b).
Qed.

(** Every Empty cell left by the agent's move is the opponent's answer for
    some state of the generator. *)
Lemma step_reply_at (σ : world) (b : ndarray) (a : Z) (i j : nat) :
  playing σ b → legal b a →
  ¬ spec_isWin (agent_move b a) 1 → ¬ all_nonempty (agent_move b a) →
  cell (agent_move b a) i j = Some 0 →
  ∃ g σ',
    let b2 := mark (agent_move b a) i j 2 in
    let over := is_win_array b2 2 || np_all_nonzero b2 in
    step a (with_rng σ g)
      = Ret (StepRet (length (heap σ))
               (if is_win_array b2 2 then -1 else 0)%float over false ∅) σ'
    ∧ observed (with_rng σ g) σ' (length (heap σ)) b2
    ∧ done σ' = over
    ∧ current_player σ' = (if over then 2 else 1).
Proof.
  intros Hp Hl Hw Hf Hij.
  destruct (argwhere_choice_any _ _ _ Hij) as [n Hn].
  assert (playing (with_rng σ (λ _, n)) b) as Hp' by (by destruct σ).
  destruct (step_reply _ b a Hp' Hl Hw Hf) as (i' & j' & σ' & Hi' & _ & H).
  simpl in Hi'. rewrite Hn in Hi'.
  assert (i' = i ∧ j' = j) as [-> ->] by (split; simplify_eq; lia).
  simpl in H. destruct H as (H & _ & Ho & Hd & Hc & _).
  exists (λ _, n), σ'. simpl. done.
Qed.

(** The first move of an episode: on the all-Empty board every action in
    [0, 8] is legal, the opponent answers at another cell, and the episode
    goes on. *)
Lemma step_first (σ : world) (a : Z) :
  playing σ (np_zeros 3 3) → 0 ≤ a ≤ 8 →
  ∃ i j σ',
    (i < 3)%nat ∧ (j < 3)%nat ∧ (i, j) ≠ decode a
    ∧ step a σ = Ret (StepRet (length (heap σ)) 0%float false false ∅) σ'
    ∧ observed σ σ' (length (heap σ)) (mark (agent_move (np_zeros 3 3) a) i j 2)
    ∧ done σ' = false
    ∧ current_player σ' = 1
    ∧ cell (mark (agent_move (np_zeros 3 3) a) i j 2) (decode a).1 (decode a).2 = Some 1
    ∧ count_marks (mark (agent_move (np_zeros 3 3) a) i j 2) 1 = 1%nat
    ∧ count_marks (mark (agent_move (np_zeros 3 3) a) i j 2) 2 = 1%nat.
Proof.
  intros Hp Ha.
  assert (legal (np_zeros 3 3) a) as Hl.
  { split; [done|]. destruct (decode_range a Ha) as (Hr & Hc & _).
    destruct (decode a) as [r c]. simpl in *. below3 r Hr; below3 c Hc; done. }
  assert (a = 0 ∨ a = 1 ∨ a = 2 ∨ a = 3 ∨ a = 4 ∨ a = 5 ∨ a = 6 ∨ a = 7 ∨ a = 8)
    as Hcases by lia.
  assert (Hs1 : shape33 (agent_move (np_zeros 3 3) a)).
  { apply shape33_mark, np_zeros_shape. }
  assert (Hw : ¬ spec_isWin (agent_move (np_zeros 3 3) a) 1).
  { apply not_spec_isWin; [done|].
    destruct Hcases as [->|[->|[->|[->|[->|[->|[->|[->| ->]]]]]]]]; reflexivity. }
  assert (Hf : ¬ all_nonempty (agent_move (np_zeros 3 3) a)).
  { apply not_all_nonempty; [done|].
    destruct Hcases as [->|[->|[->|[->|[->|[->|[->|[->| ->]]]]]]]]; reflexivity. }
  destruct (step_reply σ _ a Hp Hl Hw Hf) as (i & j & σ' & _ & Hij & H).
  simpl in H. destruct H as (H & _ & Ho & Hd & Hc & _).
  destruct (agent_move_empty (np_zeros 3 3) a i j) as [Hz Hne];
    [by rewrite (proj2 Hl) | done |].
  assert ((i < 3)%nat ∧ (j < 3)%nat) as [Hi Hj].
  { clear - Hz. unfold cell in Hz.
    destruct i as [|[|[|i]]]; try done; destruct j as [|[|[|j]]]; try done; lia. }
  exists i, j, σ'. do 3 (split; [done|]).
  assert (is_win_array (mark (agent_move (np_zeros 3 3) a) i j 2) 2
          || np_all_nonzero (mark (agent_move (np_zeros 3 3) a) i j 2) = false
          ∧ cell (mark (agent_move (np_zeros 3 3) a) i j 2) (decode a).1 (decode a).2
            = Some 1
          ∧ count_marks (mark (agent_move (np_zeros 3 3) a) i j 2) 1 = 1%nat
          ∧ count_marks (mark (agent_move (np_zeros 3 3) a) i j 2) 2 = 1%nat)
    as (Hover & Hcell & Hc1 & Hc2).
  { clear - Hcases Hi Hj Hne.
    destruct Hcases as [->|[->|[->|[->|[->|[->|[->|[->| ->]]]]]]]];
      below3 i Hi; below3 j Hj; try done; vm_compute; done. }
  rewrite Hover in Hd, Hc. apply orb_false_iff in Hover as [Hw2 Hf2].
  rewrite Hw2, Hf2 in H. simpl in H. done.
Qed.

Lemma reset_playing (σ : world) :
  playing (World (heap σ ++ [np_zeros 3 3; np_zeros 3 3]) (length (heap σ)) 1 false
             (rng σ))
          (np_zeros 3 3).
Proof.
  split; [|done]. split; [|apply np_zeros_shape]. simpl.
  rewrite lookup_app_r by done. by rewrite Nat.sub_diag.
Qed.

(** ** Every call of [step], and the invariant of the class *)

(** What a call of [step] does in a well-formed world, for an action in
    range: it returns, the board keeps its shape, and the world stays
    well-formed. *)
Lemma step_in_range (σ : world) (b : ndarray) (a : Z) :
  board_is σ b → (done σ = false → current_player σ = 1) →
  done σ = true ∨ 0 ≤ a ≤ 8 →
  ∃ r σ' b',
    step a σ = Ret r σ'
    ∧ observed σ σ' (obs r) b'
    ∧ shape33 b'
    ∧ (done σ' = false → current_player σ' = 1)
    ∧ done σ' = terminated r
    ∧ truncated r = false.
Proof.
  intros [Hb Hs] Hcp Hin.
  assert (done σ = true ∨ (∃ v, getitem b (a `div` 3) (a `mod` 3) = Some v ∧ v ≠ 0) →
               ∃ r σ' b', step a σ = Ret r σ' ∧ observed σ σ' (obs r) b' ∧ shape33 b'
                 ∧ (done σ' = false → current_player σ' = 1)
                 ∧ done σ' = terminated r ∧ truncated r = false) as Hinvalid.
  { intros H. rewrite (step_invalid σ b a Hb H).
    eexists _, _, b. split; [done|]. simpl. split; [|done].
    destruct σ as [h l p d g]. by apply observed_same. }
  destruct (done σ) eqn:Hd; [by apply Hinvalid; left|].
  destruct Hin as [?|Ha]; [done|]. specialize (Hcp eq_refl).
  destruct (getitem_decode b a Hs Ha) as [Hg [v Hv]].
  destruct (decide (v = 0)) as [->|Hne].
  2: { apply Hinvalid. right. exists v. by rewrite Hg. }
  assert (Hp : playing σ b) by done.
  assert (Hl : legal b a) by done.
  assert (Hs1 : shape33 (agent_move b a)) by (by apply shape33_mark).
  pose proof (step_legal σ b a Hp Hl) as H. simpl in H.
  destruct (is_win_array (agent_move b a) 1 || np_all_nonzero (agent_move b a)).
  - eexists _, _, (agent_move b a). split; [exact H|]. simpl.
    split; [|done]. destruct σ as [h l p d g]. by apply (observed_update h l b).
  - destruct H as (i & j & _ & _ & H).
    eexists _, _, (mark (agent_move b a) i j 2). split; [exact H|]. simpl.
    split. { destruct σ as [h l p d g]. by apply (observed_update h l b). }
    split; [by apply shape33_mark|]. split; [|done].
    by destruct (is_win_array _ 2 || np_all_nonzero _).
Qed.

Lemma step_outcome (σ : world) (b : ndarray) (a : Z) :
  board_is σ b → (done σ = false → current_player σ = 1) →
  (done σ = false ∧ ¬ (-9 ≤ a ≤ 8) ∧ step a σ = Raise IndexError σ)
  ∨ ((done σ = true ∨ -9 ≤ a ≤ 8)
     ∧ ∃ r σ' b',
         step a σ = Ret r σ'
         ∧ observed σ σ' (obs r) b'
         ∧ shape33 b'
         ∧ (done σ' = false → current_player σ' = 1)
         ∧ done σ' = terminated r
         ∧ truncated r = false).
Proof.
  intros Hbs Hcp.
  destruct (decide (done σ = true)) as [Hd|Hd].
  { right. split; [by left|]. apply (step_in_range σ b a); [done..|]. by left. }
  apply not_true_is_false in Hd.
  destruct (decide (-9 ≤ a ≤ 8)) as [Ha|Ha].
  - right. split; [by right|].
    destruct (decide (0 ≤ a)) as [Hpos|Hneg].
    + apply (step_in_range σ b a); [done..|]. right. lia.
    + destruct Hbs as [Hb Hs]. rewrite (step_wrap σ b a Hb Hs) by lia.
      apply (step_in_range σ b (a + 9)); [done..|]. right. lia.
  - left. do 2 (split; [done|]). destruct Hbs as [Hb Hs].
    apply (step_index_error σ b a Hb Hd). by apply getitem_out_of_range.
Qed.

(** Every world a run can be in is well-formed. *)
Lemma reachable_wf (σ : world) : reachable σ → wf σ.
Proof.
  induction 1 as [h g r σ Hi|σ r σ' _ _ Hr|σ a r σ' _ IH Hst|σ a e σ' _ IH Hst].
  - unfold __init__ in Hi. rewrite reset_run in Hi. simplify_eq.
    destruct (reset_playing (World h 0%nat 0 false g)) as [Hb _].
    split; [by eexists|done].
  - rewrite reset_run in Hr. simplify_eq.
    destruct (reset_playing σ) as [Hb _]. split; [by eexists|done].
  - destruct IH as [[b Hb] Hcp].
    destruct (step_outcome σ b a Hb Hcp)
      as [(_ & _ & Hraise)|(_ & r' & σ'' & b' & Hret & Ho & Hs' & Hcp' & _)].
    { congruence. }
    rewrite Hret in Hst. simplify_eq.
    split; [|done]. exists b'. split; [|done]. by destruct Ho as (_ & Ho & _).
  - destruct IH as [[b Hb] Hcp].
    destruct (step_outcome σ b a Hb Hcp)
      as [(_ & _ & Hraise)|(_ & r' & σ'' & b' & Hret & _)].
    + rewrite Hraise in Hst. simplify_eq. split; [by exists b|done].
    + congruence.
Qed.

(** In a run, a running episode is one where the agent is to move. *)
Lemma reachable_playing (σ : world) :
  reachable σ → done σ = false → ∃ b, playing σ b.
Proof.
  intros Hr Hd. destruct (reachable_wf σ Hr) as [[b Hb] Hcp].
  exists b. split; [done|]. split; [done|]. by apply Hcp.
Qed.

(** An array returned earlier is never changed by a later call of [step]:
    what a caller holds does not alias the board. *)
Lemma observation_survives_step (σ : world) (a : Z) (r : StepReturn) (σ' : world)
    (o : loc) (x : ndarray) :
  wf σ → heap σ !! o = Some x → o ≠ board σ →
  step a σ = Ret r σ' → heap σ' !! o = Some x ∧ o ≠ board σ' ∧ o ≠ obs r.
Proof.
  intros [[b Hb] Hcp] Hx Hne Hst.
  destruct (step_outcome σ b a Hb Hcp)
    as [(_ & _ & Hraise)|(_ & r' & σ'' & b' & Hret & Ho & _)]; [congruence|].
  rewrite Hret in Hst. simplify_eq.
  destruct Ho as (Hbd & _ & _ & _ & Hnew & Hframe).
  split; [by apply Hframe|]. split; [by rewrite Hbd|]. congruence.
Qed.

Lemma fresh_world_init (n : nat) :
  __init__ [] (λ _, n) = Ret (1%nat, ∅) (fresh_world n).
Proof. reflexivity. Qed.

(** ** The illegal-move branch *)

(** C1. A call of [step] with an action in [0, 8] whose decoded cell is not
    Empty, or any call of [step] while the episode is already terminal,
    returns terminal = true, reward = -1.0, info["invalid_move"] = true and
    truncated = false, and the board is as it was before the call. *)
Theorem step_illegal_move (σ : world) (b : ndarray) (a : Z) :
  board_is σ b →
  done σ = true
  ∨ (0 ≤ a ≤ 8 ∧ ∃ v, cell b (decode a).1 (decode a).2 = Some v ∧ v ≠ 0) →
  ∃ r σ',
    step a σ = Ret r σ'
    ∧ terminated r = true
    ∧ reward r = (-1)%float
    ∧ info r !! "invalid_move" = Some true
    ∧ truncated r = false
    ∧ done σ' = true
    ∧ observed σ σ' (obs r) b.
Proof.
  intros [Hb Hs] H.
  assert (done σ = true ∨ ∃ v, getitem b (a `div` 3) (a `mod` 3) = Some v ∧ v ≠ 0)
    as H'.
  { destruct H as [Hd|(Ha & v & Hv & Hne)]; [by left|right].
    exists v. destruct (getitem_decode b a Hs Ha) as [-> _]. done. }
  rewrite (step_invalid σ b a Hb H').
  eexists _, _. split; [done|]. simpl. do 5 (split; [done|]).
  destruct σ as [h l p d g]. by apply observed_same.
Qed.

Lemma step_illegal_move_witness :
  ∃ r σ',
    step 1 (world_of [[1; 2; 0]; [0; 0; 0]; [0; 0; 0]] 0) = Ret r σ'
    ∧ terminated r = true
    ∧ reward r = (-1)%float
    ∧ info r !! "invalid_move" = Some true
    ∧ truncated r = false
    ∧ done σ' = true
    ∧ observed (world_of [[1; 2; 0]; [0; 0; 0]; [0; 0; 0]] 0) σ' (obs r)
        [[1; 2; 0]; [0; 0; 0]; [0; 0; 0]].
Proof.
  apply (step_illegal_move (world_of [[1; 2; 0]; [0; 0; 0]; [0; 0; 0]] 0)
           [[1; 2; 0]; [0; 0; 0]; [0; 0; 0]] 1).
  - split; [reflexivity | split; [reflexivity | repeat constructor]].
  - right. split; [lia|]. exists 2. split; [reflexivity | lia].
Defined.

(** C6. For every board and every player, the win predicate [_is_win] is
    true if and only if some row has all three cells equal to the player, or
    some column has, or the main diagonal (0,0)-(1,1)-(2,2) has, or the
    anti-diagonal (0,2)-(1,1)-(2,0) has. *)
Theorem is_win_spec (σ : world) (b : ndarray) (player : Z) :
  board_is σ b →
  ∃ w, _is_win player σ = Ret w σ ∧ (w = true ↔ spec_isWin b player).
Proof.
  intros [Hb Hs]. exists (is_win_array b player). split.
  - run. by rewrite Hb.
  - by apply is_win_array_spec.
Qed.

Lemma is_win_spec_witness :
  ∃ w,
    _is_win 2 (world_of [[1; 1; 2]; [0; 2; 1]; [2; 0; 0]] 0)
      = Ret w (world_of [[1; 1; 2]; [0; 2; 1]; [2; 0; 0]] 0)
    ∧ (w = true ↔ spec_isWin [[1; 1; 2]; [0; 2; 1]; [2; 0; 0]] 2).
Proof.
  apply (is_win_spec (world_of [[1; 1; 2]; [0; 2; 1]; [2; 0; 0]] 0)
           [[1; 1; 2]; [0; 2; 1]; [2; 0; 0]] 2).
  split; [reflexivity | split; [reflexivity | repeat constructor]].
Defined.

(** ** The agent's move *)

(** C3. In a non-terminal state, for a legal action in [0, 8]: if placing
    PlayerA's mark at the decoded cell completes three-in-a-row for PlayerA,
    [step] returns terminal = true and reward = +1.0, and no opponent move is
    applied: the board after the call is the prior board with PlayerA's new
    mark, and the generator has not been drawn from. *)
Theorem step_agent_wins (σ : world) (b : ndarray) (a : Z) :
  playing σ b → legal b a → spec_isWin (agent_move b a) 1 →
  ∃ r σ',
    step a σ = Ret r σ'
    ∧ terminated r = true
    ∧ reward r = 1%float
    ∧ truncated r = false
    ∧ info r = ∅
    ∧ done σ' = true
    ∧ rng σ' = rng σ
    ∧ observed σ σ' (obs r) (agent_move b a).
Proof.
  intros Hp Hl Hw. pose proof (step_legal σ b a Hp Hl) as H. simpl in H.
  destruct Hp as ((Hb & Hs) & Hd & Hp).
  apply is_win_array_spec in Hw; [|by apply shape33_mark].
  rewrite Hw in H. simpl in H. rewrite H.
  eexists _, _. split; [done|]. simpl. do 6 (split; [done|]).
  destruct σ as [h l p d g]. by apply (observed_update h l b).
Qed.

Lemma step_agent_wins_witness :
  ∃ r σ',
    step 2 (world_of [[1; 1; 0]; [2; 2; 0]; [0; 0; 0]] 0) = Ret r σ'
    ∧ terminated r = true
    ∧ reward r = 1%float
    ∧ truncated r = false
    ∧ info r = ∅
    ∧ done σ' = true
    ∧ rng σ' = rng (world_of [[1; 1; 0]; [2; 2; 0]; [0; 0; 0]] 0)
    ∧ observed (world_of [[1; 1; 0]; [2; 2; 0]; [0; 0; 0]] 0) σ' (obs r)
        (agent_move [[1; 1; 0]; [2; 2; 0]; [0; 0; 0]] 2).
Proof.
  apply (step_agent_wins (world_of [[1; 1; 0]; [2; 2; 0]; [0; 0; 0]] 0)
           [[1; 1; 0]; [2; 2; 0]; [0; 0; 0]] 2).
  - split; [|split; reflexivity].
    split; [reflexivity | split; [reflexivity | repeat constructor]].
  - split; [lia | reflexivity].
  - left. exists 0%nat. split; [lia|].
    intros [|[|[|j]]] Hj; [reflexivity.. | lia].
Defined.

(** ** The opponent's reply *)

(** C4. In a non-terminal state, for a legal action where PlayerA's move
    neither wins nor fills the board: if the opponent's randomly selected
    reply completes three-in-a-row for PlayerB, [step] returns
    terminal = true and reward = -1.0 -- whichever Empty cell [(i, j)] the
    generator makes the opponent choose, and every Empty cell is chosen
    under some generator. *)
Theorem step_opponent_wins (σ : world) (b : ndarray) (a : Z) :
  playing σ b → legal b a →
  ¬ spec_isWin (agent_move b a) 1 → ¬ all_nonempty (agent_move b a) →
  (∃ i j r σ',
     cell (agent_move b a) i j = Some 0
     ∧ step a σ = Ret r σ'
     ∧ observed σ σ' (obs r) (mark (agent_move b a) i j 2)
     ∧ (spec_isWin (mark (agent_move b a) i j 2) 2 →
        terminated r = true ∧ reward r = (-1)%float ∧ done σ' = true))
  ∧ (∀ i j,
       cell (agent_move b a) i j = Some 0 →
       spec_isWin (mark (agent_move b a) i j 2) 2 →
       ∃ g r σ',
         step a (with_rng σ g) = Ret r σ'
         ∧ observed (with_rng σ g) σ' (obs r) (mark (agent_move b a) i j 2)
         ∧ terminated r = true ∧ reward r = (-1)%float ∧ done σ' = true).
Proof.
  intros Hp Hl Hw Hf.
  assert (Hs1 : shape33 (agent_move b a)).
  { apply shape33_mark. by destruct Hp as ((_ & Hs) & _). }
  split.
  - destruct (step_reply σ b a Hp Hl Hw Hf) as (i & j & σ' & _ & Hij & H).
    simpl in H. destruct H as (H & Hs2 & Ho & Hd & _).
    exists i, j. eexists _, σ'. split; [done|]. split; [exact H|].
    split; [exact Ho|]. simpl. intros Hw2.
    apply is_win_array_spec in Hw2; [|done]. rewrite Hd, Hw2. done.
  - intros i j Hij Hw2.
    destruct (step_reply_at σ b a i j Hp Hl Hw Hf Hij) as (g & σ' & H).
    simpl in H. destruct H as (H & Ho & Hd & _).
    exists g. eexists _, σ'. split; [exact H|]. split; [exact Ho|]. simpl.
    apply is_win_array_spec in Hw2; [|by apply shape33_mark]. rewrite Hd, Hw2. done.
Qed.

Lemma step_opponent_wins_witness :
  let σ := world_of [[1; 0; 0]; [2; 2; 0]; [1; 0; 0]] 1 in
  let b1 := agent_move [[1; 0; 0]; [2; 2; 0]; [1; 0; 0]] 1 in
  (∃ i j r σ',
     cell b1 i j = Some 0
     ∧ step 1 σ = Ret r σ'
     ∧ observed σ σ' (obs r) (mark b1 i j 2)
     ∧ (spec_isWin (mark b1 i j 2) 2 →
        terminated r = true ∧ reward r = (-1)%float ∧ done σ' = true))
  ∧ (∀ i j,
       cell b1 i j = Some 0 →
       spec_isWin (mark b1 i j 2) 2 →
       ∃ g r σ',
         step 1 (with_rng σ g) = Ret r σ'
         ∧ observed (with_rng σ g) σ' (obs r) (mark b1 i j 2)
         ∧ terminated r = true ∧ reward r = (-1)%float ∧ done σ' = true).
Proof.
  apply (step_opponent_wins (world_of [[1; 0; 0]; [2; 2; 0]; [1; 0; 0]] 1)
           [[1; 0; 0]; [2; 2; 0]; [1; 0; 0]] 1).
  - split; [|split; reflexivity].
    split; [reflexivity | split; [reflexivity | repeat constructor]].
  - split; [lia | reflexivity].
  - apply not_spec_isWin; [split; [reflexivity | repeat constructor] | reflexivity].
  - apply not_all_nonempty; [split; [reflexivity | repeat constructor] | reflexivity].
Defined.

(** With the generator of the witness the opponent takes (1, 2), completes
    the middle row and the agent loses. *)
Example step_opponent_wins_run :
  step 1 (world_of [[1; 0; 0]; [2; 2; 0]; [1; 0; 0]] 1)
  = Ret (StepRet 1%nat (-1)%float true false ∅)
        (World [[[1; 1; 0]; [2; 2; 2]; [1; 0; 0]]; [[1; 1; 0]; [2; 2; 2]; [1; 0; 0]]]
               0%nat 2 true (λ _, 1%nat)).
Proof. reflexivity. Qed.

(** ** Draws *)

(** C5. For every legal call of [step] after which all 9 cells are
    non-Empty and neither player has three-in-a-row -- whether the board
    [bf] was filled by PlayerA's move or by the opponent's reply -- [step]
    returns terminal = true and reward = 0.0. *)
Theorem step_draw (σ : world) (b : ndarray) (a : Z) :
  playing σ b → legal b a →
  ∃ r σ' bf,
    step a σ = Ret r σ'
    ∧ observed σ σ' (obs r) bf
    ∧ (((spec_isWin (agent_move b a) 1 ∨ all_nonempty (agent_move b a))
        ∧ bf = agent_move b a)
       ∨ (¬ spec_isWin (agent_move b a) 1 ∧ ¬ all_nonempty (agent_move b a)
          ∧ ∃ i j, cell (agent_move b a) i j = Some 0
                   ∧ bf = mark (agent_move b a) i j 2))
    ∧ (all_nonempty bf → ¬ spec_isWin bf 1 → ¬ spec_isWin bf 2 →
       terminated r = true ∧ reward r = 0%float ∧ done σ' = true).
Proof.
  intros Hp Hl.
  assert (Hs1 : shape33 (agent_move b a)).
  { apply shape33_mark. by destruct Hp as ((_ & Hs) & _). }
  destruct (is_win_array (agent_move b a) 1 || np_all_nonzero (agent_move b a)) eqn:He.
  - pose proof (step_legal σ b a Hp Hl) as H. simpl in H. rewrite He in H.
    eexists _, _, (agent_move b a). split; [exact H|]. simpl.
    split; [|split].
    + destruct Hp as ((Hb & _) & _). destruct σ as [h l p d g].
      by apply (observed_update h l b).
    + left. split; [|done]. apply orb_true_iff in He as [He|He].
      * left. by apply is_win_array_spec.
      * right. by apply np_all_nonzero_spec.
    + intros _ Hw1 _. by rewrite (is_win_array_false _ _ Hs1 Hw1).
  - apply orb_false_iff in He as [Hw Hf].
    apply not_spec_isWin in Hw; [|done]. apply not_all_nonempty in Hf; [|done].
    destruct (step_reply σ b a Hp Hl Hw Hf) as (i & j & σ' & _ & Hij & H).
    simpl in H. destruct H as (H & Hs2 & Ho & Hd & _).
    eexists _, σ', (mark (agent_move b a) i j 2). split; [exact H|]. simpl.
    split; [exact Ho|]. split.
    + right. split; [done|]. split; [done|]. by exists i, j.
    + intros Hfull _ Hw2. rewrite Hd.
      rewrite (is_win_array_false _ _ Hs2 Hw2).
      apply np_all_nonzero_spec in Hfull; [|done]. by rewrite Hfull.
Qed.

Lemma step_draw_witness :
  ∃ r σ' bf,
    step 8 (world_of [[1; 2; 1]; [1; 2; 2]; [2; 1; 0]] 0) = Ret r σ'
    ∧ observed (world_of [[1; 2; 1]; [1; 2; 2]; [2; 1; 0]] 0) σ' (obs r) bf
    ∧ (((spec_isWin (agent_move [[1; 2; 1]; [1; 2; 2]; [2; 1; 0]] 8) 1
         ∨ all_nonempty (agent_move [[1; 2; 1]; [1; 2; 2]; [2; 1; 0]] 8))
        ∧ bf = agent_move [[1; 2; 1]; [1; 2; 2]; [2; 1; 0]] 8)
       ∨ (¬ spec_isWin (agent_move [[1; 2; 1]; [1; 2; 2]; [2; 1; 0]] 8) 1
          ∧ ¬ all_nonempty (agent_move [[1; 2; 1]; [1; 2; 2]; [2; 1; 0]] 8)
          ∧ ∃ i j, cell (agent_move [[1; 2; 1]; [1; 2; 2]; [2; 1; 0]] 8) i j = Some 0
                   ∧ bf = mark (agent_move [[1; 2; 1]; [1; 2; 2]; [2; 1; 0]] 8) i j 2))
    ∧ (all_nonempty bf → ¬ spec_isWin bf 1 → ¬ spec_isWin bf 2 →
       terminated r = true ∧ reward r = 0%float ∧ done σ' = true).
Proof.
  apply (step_draw (world_of [[1; 2; 1]; [1; 2; 2]; [2; 1; 0]] 0)
           [[1; 2; 1]; [1; 2; 2]; [2; 1; 0]] 8).
  - split; [|split; reflexivity].
    split; [reflexivity | split; [reflexivity | repeat constructor]].
  - split; [lia | reflexivity].
Defined.

(** The agent's last mark fills the board without a line: a draw. *)
Example step_draw_by_agent :
  step 8 (world_of [[1; 2; 1]; [1; 2; 2]; [2; 1; 0]] 0)
  = Ret (StepRet 1%nat 0%float true false ∅)
        (World [[[1; 2; 1]; [1; 2; 2]; [2; 1; 1]]; [[1; 2; 1]; [1; 2; 2]; [2; 1; 1]]]
               0%nat 1 true (λ _, 0%nat)).
Proof. reflexivity. Qed.

(** The opponent's reply fills the board without a line: a draw. *)
Example step_draw_by_opponent :
  step 7 (world_of [[1; 2; 1]; [1; 2; 2]; [2; 0; 0]] 0)
  = Ret (StepRet 1%nat 0%float true false ∅)
        (World [[[1; 2; 1]; [1; 2; 2]; [2; 1; 2]]; [[1; 2; 1]; [1; 2; 2]; [2; 1; 2]]]
               0%nat 2 true (λ _, 0%nat)).
Proof. reflexivity. Qed.

(** ** The episode goes on *)

(** C8. In a non-terminal state, for a legal action where PlayerA's move
    neither wins nor fills the board and the opponent's reply neither wins
    nor fills the board, [step] returns terminal = false, reward = 0.0, an
    empty info mapping, and a board equal to the prior board plus PlayerA's
    mark at the decoded cell and exactly one PlayerB mark at some previously
    Empty cell [(i, j)], with the turn marker back at PlayerA.  In
    particular [reset(); step(0)] yields PlayerA at (0,0), exactly one
    PlayerB mark elsewhere, reward = 0.0, terminal = false, whatever the
    generator makes the opponent choose, and each of the other eight cells
    is the opponent's for some generator. *)
Theorem step_continues :
  (∀ (σ : world) (b : ndarray) (a : Z),
     playing σ b → legal b a →
     ¬ spec_isWin (agent_move b a) 1 → ¬ all_nonempty (agent_move b a) →
     ∃ i j r σ',
       cell b i j = Some 0 ∧ (i, j) ≠ decode a
       ∧ step a σ = Ret r σ'
       ∧ observed σ σ' (obs r) (mark (agent_move b a) i j 2)
       ∧ (∀ i' j',
            cell (mark (agent_move b a) i j 2) i' j' =
              if decide ((i', j') = (i, j)) then Some 2
              else if decide ((i', j') = decode a) then Some 1
              else cell b i' j')
       ∧ (¬ spec_isWin (mark (agent_move b a) i j 2) 2 →
          ¬ all_nonempty (mark (agent_move b a) i j 2) →
          terminated r = false ∧ reward r = 0%float ∧ info r = ∅
          ∧ truncated r = false ∧ current_player σ' = 1 ∧ done σ' = false))
  ∧ (∀ σ0 : world,
       ∃ o σ, reset σ0 = Ret o σ ∧
       ∃ i j r σ',
         (i < 3)%nat ∧ (j < 3)%nat ∧ (i, j) ≠ (0, 0)%nat
         ∧ step 0 σ = Ret r σ'
         ∧ observed σ σ' (obs r) (mark (mark (np_zeros 3 3) 0 0 1) i j 2)
         ∧ cell (mark (mark (np_zeros 3 3) 0 0 1) i j 2) 0 0 = Some 1
         ∧ count_marks (mark (mark (np_zeros 3 3) 0 0 1) i j 2) 2 = 1%nat
         ∧ reward r = 0%float ∧ terminated r = false)
  ∧ (∀ (σ0 : world) (i j : nat),
       (i < 3)%nat → (j < 3)%nat → (i, j) ≠ (0, 0)%nat →
       ∃ g o σ r σ',
         reset (with_rng σ0 g) = Ret o σ
         ∧ step 0 σ = Ret r σ'
         ∧ observed σ σ' (obs r) (mark (mark (np_zeros 3 3) 0 0 1) i j 2)
         ∧ reward r = 0%float ∧ terminated r = false).
Proof.
  split; [|split].
  - intros σ b a Hp Hl Hw Hf.
    destruct (step_reply σ b a Hp Hl Hw Hf) as (i & j & σ' & _ & Hij & H).
    simpl in H. destruct H as (H & Hs2 & Ho & Hd & Hc & _).
    destruct (agent_move_empty b a i j) as [Hz Hne];
      [by rewrite (proj2 Hl) | done |].
    exists i, j. eexists _, σ'. do 2 (split; [done|]). split; [exact H|].
    simpl. split; [exact Ho|]. split.
    + intros i' j'. by apply cell_after_moves.
    + intros Hw2 Hf2. rewrite Hd, Hc.
      rewrite (is_win_array_false _ _ Hs2 Hw2), (np_all_nonzero_not _ Hs2 Hf2). done.
  - intros σ0. rewrite reset_run. eexists _, _. split; [done|].
    destruct (step_first _ 0 (reset_playing σ0) ltac:(lia))
      as (i & j & σ' & Hi & Hj & Hne & H & Ho & _ & _ & Hc & _ & Hc2).
    exists i, j. eexists _, σ'. do 3 (split; [done|]). split; [exact H|].
    simpl. done.
  - intros σ0 i j Hi Hj Hne.
    pose proof (reset_playing σ0) as Hp.
    assert (Hl : legal (np_zeros 3 3) 0) by (split; [lia|done]).
    assert (Hs1 : shape33 (agent_move (np_zeros 3 3) 0)).
    { apply shape33_mark, np_zeros_shape. }
    assert (Hw : ¬ spec_isWin (agent_move (np_zeros 3 3) 0) 1).
    { by apply not_spec_isWin. }
    assert (Hf : ¬ all_nonempty (agent_move (np_zeros 3 3) 0)).
    { by apply not_all_nonempty. }
    assert (Hij : cell (agent_move (np_zeros 3 3) 0) i j = Some 0).
    { below3 i Hi; below3 j Hj; done. }
    destruct (step_reply_at _ _ 0 i j Hp Hl Hw Hf Hij) as (g & σ' & H).
    cbv zeta in H. destruct H as (H & Ho & _).
    assert (is_win_array (mark (agent_move (np_zeros 3 3) 0) i j 2) 2 = false
            ∧ np_all_nonzero (mark (agent_move (np_zeros 3 3) 0) i j 2) = false)
      as [Hw2 Hf2].
    { clear - Hi Hj. below3 i Hi; below3 j Hj; done. }
    rewrite Hw2, Hf2 in H.
    exists g. eexists _, _, _, σ'. split; [by rewrite reset_run|].
    split; [exact H|]. done.
Qed.

Lemma step_continues_witness :
  ∃ i j r σ',
    cell [[1; 0; 0]; [0; 2; 0]; [0; 0; 0]] i j = Some 0 ∧ (i, j) ≠ decode 2
    ∧ step 2 (world_of [[1; 0; 0]; [0; 2; 0]; [0; 0; 0]] 3) = Ret r σ'
    ∧ observed (world_of [[1; 0; 0]; [0; 2; 0]; [0; 0; 0]] 3) σ' (obs r)
        (mark (agent_move [[1; 0; 0]; [0; 2; 0]; [0; 0; 0]] 2) i j 2)
    ∧ (∀ i' j',
         cell (mark (agent_move [[1; 0; 0]; [0; 2; 0]; [0; 0; 0]] 2) i j 2) i' j' =
           if decide ((i', j') = (i, j)) then Some 2
           else if decide ((i', j') = decode 2) then Some 1
           else cell [[1; 0; 0]; [0; 2; 0]; [0; 0; 0]] i' j')
    ∧ (¬ spec_isWin (mark (agent_move [[1; 0; 0]; [0; 2; 0]; [0; 0; 0]] 2) i j 2) 2 →
       ¬ all_nonempty (mark (agent_move [[1; 0; 0]; [0; 2; 0]; [0; 0; 0]] 2) i j 2) →
       terminated r = false ∧ reward r = 0%float ∧ info r = ∅
       ∧ truncated r = false ∧ current_player σ' = 1 ∧ done σ' = false).
Proof.
  apply (proj1 step_continues (world_of [[1; 0; 0]; [0; 2; 0]; [0; 0; 0]] 3)
           [[1; 0; 0]; [0; 2; 0]; [0; 0; 0]] 2).
  - split; [|split; reflexivity].
    split; [reflexivity | split; [reflexivity | repeat constructor]].
  - split; [lia | reflexivity].
  - apply not_spec_isWin; [split; [reflexivity | repeat constructor] | reflexivity].
  - apply not_all_nonempty; [split; [reflexivity | repeat constructor] | reflexivity].
Defined.

(** With the generator of the witness the opponent takes the fourth Empty
    cell, (2, 0), and the episode goes on. *)
Example step_continues_run :
  step 2 (world_of [[1; 0; 0]; [0; 2; 0]; [0; 0; 0]] 3)
  = Ret (StepRet 1%nat 0%float false false ∅)
        (World [[[1; 0; 1]; [0; 2; 0]; [2; 0; 0]]; [[1; 0; 1]; [0; 2; 0]; [2; 0; 0]]]
               0%nat 1 false (λ _, 3%nat)).
Proof. reflexivity. Qed.

(** ** Reset and construction *)

(** C7. [reset], callable in any state, leaves the environment with an
    all-Empty board, turn marker = PlayerA and terminal flag = false, and
    returns a copy of the empty board together with an empty info mapping;
    consequently, immediately after [reset], [step] with any action in
    [0, 8] never takes the illegal-move branch. *)
Theorem reset_spec (σ : world) :
  ∃ o σ',
    reset σ = Ret (o, ∅) σ'
    ∧ heap σ' !! board σ' = Some (np_zeros 3 3)
    ∧ (∀ i j, (i < 3)%nat → (j < 3)%nat → cell (np_zeros 3 3) i j = Some 0)
    ∧ current_player σ' = 1
    ∧ done σ' = false
    ∧ heap σ' !! o = Some (np_zeros 3 3)
    ∧ o ≠ board σ'
    ∧ heap σ !! o = None ∧ heap σ !! board σ' = None
    ∧ (∀ k x, heap σ !! k = Some x → heap σ' !! k = Some x)
    ∧ ∀ a, 0 ≤ a ≤ 8 →
        ∃ r σ'', step a σ' = Ret r σ''
                 ∧ info r !! "invalid_move" = None
                 ∧ terminated r = false
                 ∧ reward r = 0%float.
Proof.
  rewrite reset_run. eexists _, _. split; [done|]. simpl.
  split. { rewrite lookup_app_r by done. by rewrite Nat.sub_diag. }
  split. { intros i j Hi Hj. below3 i Hi; below3 j Hj; done. }
  do 2 (split; [done|]).
  split. { rewrite lookup_app_r by lia. by replace (S _ - _)%nat with 1%nat by lia. }
  split; [lia|].
  split. { apply lookup_ge_None. lia. }
  split. { by apply lookup_ge_None. }
  split. { intros k x Hk. by apply lookup_app_l_Some. }
  intros a Ha.
  destruct (step_first _ a (reset_playing σ) Ha) as (i & j & σ' & _ & _ & _ & H & _).
  eexists _, σ'. split; [exact H|]. done.
Qed.

(** C10. A newly constructed environment is already in the post-reset
    state -- all-Empty board, turn marker = PlayerA, terminal flag = false --
    because the constructor invokes [reset], so [step] may be called on a
    fresh instance before any explicit call of [reset]. *)
Theorem init_spec (h : list ndarray) (g : nat → nat) :
  (∀ σ0, heap σ0 = h → rng σ0 = g → __init__ h g = reset σ0)
  ∧ ∃ o σ,
      __init__ h g = Ret (o, ∅) σ
      ∧ heap σ !! board σ = Some (np_zeros 3 3)
      ∧ (∀ i j, (i < 3)%nat → (j < 3)%nat → cell (np_zeros 3 3) i j = Some 0)
      ∧ current_player σ = 1
      ∧ done σ = false
      ∧ ∀ a, 0 ≤ a ≤ 8 →
          ∃ r σ', step a σ = Ret r σ'
                  ∧ info r !! "invalid_move" = None
                  ∧ terminated r = false
                  ∧ reward r = 0%float.
Proof.
  split.
  - intros σ0 <- <-. unfold __init__. by rewrite !reset_run.
  - unfold __init__. rewrite reset_run. eexists _, _. split; [done|]. simpl.
    split. { rewrite lookup_app_r by done. by rewrite Nat.sub_diag. }
    split. { intros i j Hi Hj. below3 i Hi; below3 j Hj; done. }
    do 2 (split; [done|]).
    intros a Ha.
    destruct (step_first _ a (reset_playing (World h 0%nat 0 false g)) Ha)
      as (i & j & σ' & _ & _ & _ & H & _).
    eexists _, σ'. split; [exact H|]. done.
Qed.

(** ** Actions outside [0, 8] *)

(** C9. For every action [a] in [-9, -1] on a non-terminal episode,
    [step(a)] behaves as [step(a + 9)]: floor division and remainder,
    together with numpy's indexing from the end, take the negative action to
    the cell [a + 9] decodes to, so it is accepted as an ordinary move and
    neither rejected nor raising. *)
Theorem step_negative_action (σ : world) (b : ndarray) (a : Z) :
  playing σ b → -9 ≤ a ≤ -1 →
  step a σ = step (a + 9) σ
  ∧ ∃ r σ' bf,
      step a σ = Ret r σ'
      ∧ observed σ σ' (obs r) bf
      ∧ (legal b (a + 9) →
         info r !! "invalid_move" = None
         ∧ cell bf (decode (a + 9)).1 (decode (a + 9)).2 = Some 1).
Proof.
  intros Hp Ha.
  destruct Hp as ((Hb & Hs) & Hd & Hcp).
  pose proof (step_wrap σ b a Hb Hs Ha) as Hwrap. split; [done|].
  rewrite Hwrap.
  destruct (decide (legal b (a + 9))) as [Hl|Hnl].
  - assert (Hp : playing σ b) by done.
    assert (Hs1 : shape33 (agent_move b (a + 9))) by (by apply shape33_mark).
    assert (Hmark : cell (agent_move b (a + 9)) (decode (a + 9)).1 (decode (a + 9)).2
                    = Some 1).
    { unfold agent_move. rewrite cell_mark, (proj2 Hl). by rewrite decide_True. }
    pose proof (step_legal σ b (a + 9) Hp Hl) as H. simpl in H.
    destruct (is_win_array (agent_move b (a + 9)) 1
              || np_all_nonzero (agent_move b (a + 9))).
    + eexists _, _, (agent_move b (a + 9)). split; [exact H|]. simpl.
      split; [|done]. destruct σ as [h l p d g]. by apply (observed_update h l b).
    + destruct H as (i & j & _ & Hij & H).
      eexists _, _, (mark (agent_move b (a + 9)) i j 2). split; [exact H|].
      split. { destruct σ as [h l p d g]. by apply (observed_update h l b). }
      intros _. split; [done|].
      rewrite (cell_after_moves b (a + 9) i j _ _ Hl Hij).
      destruct (agent_move_empty b (a + 9) i j) as [_ Hne];
        [by rewrite (proj2 Hl) | done |].
      destruct (decode (a + 9)) as [r c]. simpl.
      rewrite decide_False by congruence. by rewrite decide_True.
  - destruct (step_in_range σ b (a + 9)) as (r & σ' & bf & H & Ho & _);
      [done | by intros _ | right; lia |].
    by exists r, σ', bf.
Qed.

Lemma step_negative_action_witness :
  step (-1) (fresh_world 0) = step (-1 + 9) (fresh_world 0)
  ∧ ∃ r σ' bf,
      step (-1) (fresh_world 0) = Ret r σ'
      ∧ observed (fresh_world 0) σ' (obs r) bf
      ∧ (legal (np_zeros 3 3) (-1 + 9) →
         info r !! "invalid_move" = None
         ∧ cell bf (decode (-1 + 9)).1 (decode (-1 + 9)).2 = Some 1).
Proof.
  apply (step_negative_action (fresh_world 0) (np_zeros 3 3) (-1)).
  - split; [|split; reflexivity].
    split; [reflexivity | split; [reflexivity | repeat constructor]].
  - lia.
Defined.

(** On a fresh environment the action -1 puts the agent's mark in the last
    cell, as the action 8 does. *)
Example step_minus_one :
  step (-1) (fresh_world 0)
  = Ret (StepRet 2%nat 0%float false false ∅)
        (World [[[2; 0; 0]; [0; 0; 0]; [0; 0; 1]]; np_zeros 3 3;
                [[2; 0; 0]; [0; 0; 0]; [0; 0; 1]]]
               0%nat 1 false (λ _, 0%nat)).
Proof. reflexivity. Qed.

(** The claim C2 as stated fails: on a fresh environment the action 9
    decodes to row 3, and indexing the board raises IndexError. *)
Lemma step_9_raises :
  __init__ [] (λ _, 0%nat) = Ret (1%nat, ∅) (fresh_world 0)
  ∧ step 9 (fresh_world 0) = Raise IndexError (fresh_world 0).
Proof. split; reflexivity. Qed.

(** C2, amended.  In every well-formed world [step] raises no exception
    exactly when the episode is already terminal or the action is in
    [-9, 8]: in an already-terminal episode every integer action, in range
    or not, is folded into the normal return contract as a terminal episode
    with reward -1.0 and info["invalid_move"] = true; in a running episode
    every action in [-9, 8] returns, and every action outside [-9, 8] raises
    IndexError and leaves the environment as it was. *)
Theorem step_raises_iff_out_of_range (σ : world) (a : Z) :
  wf σ →
  (done σ = true →
   ∃ r σ', step a σ = Ret r σ'
           ∧ terminated r = true
           ∧ reward r = (-1)%float
           ∧ info r !! "invalid_move" = Some true)
  ∧ (done σ = false → -9 ≤ a ≤ 8 → ∃ r σ', step a σ = Ret r σ')
  ∧ (done σ = false → ¬ (-9 ≤ a ≤ 8) → step a σ = Raise IndexError σ).
Proof.
  intros [[b Hbs] Hcp]. split; [|split].
  - intros Hd. destruct Hbs as [Hb _].
    rewrite (step_invalid σ b a Hb (or_introl Hd)). by eexists _, _.
  - intros Hd Ha.
    destruct (step_outcome σ b a Hbs Hcp)
      as [(_ & Hout & _)|(_ & r & σ' & _ & H & _)]; [done|].
    by exists r, σ'.
  - intros Hd Ha.
    destruct (step_outcome σ b a Hbs Hcp) as [(_ & _ & H)|([?|?] & _)];
      [done | congruence | done].
Qed.

Lemma step_raises_iff_out_of_range_witness :
  (done (fresh_world 0) = true →
   ∃ r σ', step 12 (fresh_world 0) = Ret r σ'
           ∧ terminated r = true
           ∧ reward r = (-1)%float
           ∧ info r !! "invalid_move" = Some true)
  ∧ (done (fresh_world 0) = false → -9 ≤ 12 ≤ 8 →
     ∃ r σ', step 12 (fresh_world 0) = Ret r σ')
  ∧ (done (fresh_world 0) = false → ¬ (-9 ≤ 12 ≤ 8) →
     step 12 (fresh_world 0) = Raise IndexError (fresh_world 0)).
Proof.
  apply (step_raises_iff_out_of_range (fresh_world 0) 12).
  split.
  - exists (np_zeros 3 3).
    split; [reflexivity | split; [reflexivity | repeat constructor]].
  - reflexivity.
Defined.

(** A finished episode takes any action, however far out of range. *)
Example step_terminal_out_of_range :
  step 100 (World [[[1; 1; 1]; [2; 2; 0]; [0; 0; 0]]] 0%nat 1 true (λ _, 0%nat))
  = Ret (StepRet 1%nat (-1)%float true false (<["invalid_move" := true]> ∅))
        (World [[[1; 1; 1]; [2; 2; 0]; [0; 0; 0]]; [[1; 1; 1]; [2; 2; 0]; [0; 0; 0]]]
               0%nat 1 true (λ _, 0%nat)).
Proof. reflexivity. Qed.

(** ** Counting marks *)

Lemma count_marks_cons (row : list Z) (b : ndarray) (w : Z) :
  count_marks (row :: b) w = (length (filter (λ x, x = w) row) + count_marks b w)%nat.
Proof. unfold count_marks. simpl. by rewrite filter_app, length_app. Qed.

Lemma count_insert (row : list Z) (c : nat) (x v w : Z) :
  row !! c = Some x →
  (length (filter (λ y, y = w) (<[c := v]> row)) + (if decide (x = w) then 1 else 0)
   = length (filter (λ y, y = w) row) + (if decide (v = w) then 1 else 0))%nat.
Proof.
  revert c. induction row as [|y row IH]; intros [|c] H; simplify_eq/=.
  - rewrite !filter_cons. destruct (decide (v = w)), (decide (x = w)); simpl; lia.
  - specialize (IH c H). rewrite !filter_cons. destruct (decide (y = w)); simpl; lia.
Qed.

(** Putting [v] where [x] was moves one cell from the count of [x] to the
    count of [v]. *)
Lemma count_mark (b : ndarray) (i j : nat) (x v w : Z) :
  cell b i j = Some x →
  (count_marks (mark b i j v) w + (if decide (x = w) then 1 else 0)
   = count_marks b w + (if decide (v = w) then 1 else 0))%nat.
Proof.
  unfold cell, mark. revert i. induction b as [|row b IH]; intros [|i] H; simplify_eq/=.
  - rewrite !count_marks_cons. pose proof (count_insert row j x v w H). lia.
  - rewrite !count_marks_cons. specialize (IH i H). lia.
Qed.

Lemma count_three (l : list Z) :
  Forall (λ x, 0 ≤ x ≤ 2) l →
  (length (filter (λ x, x = 0%Z) l) + length (filter (λ x, x = 1%Z) l)
   + length (filter (λ x, x = 2%Z) l) = length l)%nat.
Proof.
  induction 1 as [|x l Hx _ IH]; [done|].
  rewrite !filter_cons.
  destruct (decide (x = 0)), (decide (x = 1)), (decide (x = 2)); simpl; lia.
Qed.

(** A board of shape (3, 3) with valid marks has nine cells in all. *)
Lemma count_total (b : ndarray) :
  shape33 b → valid_marks b →
  (count_marks b 0 + count_marks b 1 + count_marks b 2 = 9)%nat.
Proof.
  intros Hs Hv. unfold count_marks.
  rewrite count_three.
  - board_cells b Hs. done.
  - unfold valid_marks in Hv. clear Hs.
    induction Hv as [|row b Hrow _ IH]; [done|]. simpl. by apply Forall_app.
Qed.

Lemma np_all_nonzero_count (b : ndarray) :
  np_all_nonzero b = true ↔ count_marks b 0 = 0%nat.
Proof.
  unfold np_all_nonzero. induction b as [|row b IH]; [done|].
  rewrite count_marks_cons. simpl. rewrite andb_true_iff, IH.
  assert (forallb (λ x, negb (x =? 0)) row = true
          ↔ length (filter (λ x, x = 0) row) = 0%nat) as ->; [|lia].
  clear. induction row as [|x row IH]; [done|].
  simpl. rewrite filter_cons, andb_true_iff, IH, negb_true_iff, Z.eqb_neq.
  case_decide; simpl; split; intros; try lia; try tauto.
Qed.

Lemma valid_marks_mark (b : ndarray) (i j : nat) (v : Z) :
  valid_marks b → 0 ≤ v ≤ 2 → valid_marks (mark b i j v).
Proof.
  intros Hv Hr. unfold valid_marks, mark. apply Forall_alter; [done|].
  intros row _ Hrow. by apply Forall_insert.
Qed.

(** ** Lines survive, and only the mark put down can make one *)

Lemma cell_mark_other (b : ndarray) (i j i' j' : nat) (x v p : Z) :
  cell b i j = Some x → p ≠ v →
  cell (mark b i j v) i' j' = Some p → cell b i' j' = Some p.
Proof.
  intros Hx Hp. rewrite cell_mark, Hx. case_decide; [|done]. simpl. congruence.
Qed.

(** A line of [p] on the board after a mark [v ≠ p] was put down was there
    before. *)
Lemma spec_isWin_before (b : ndarray) (i j : nat) (x v p : Z) :
  cell b i j = Some x → p ≠ v →
  spec_isWin (mark b i j v) p → spec_isWin b p.
Proof.
  intros Hx Hp.
  pose proof (λ i' j', cell_mark_other b i j i' j' x v p Hx Hp) as Hc.
  intros [(r & Hr & H)|[(c & Hc' & H)|[(H0 & H1 & H2)|(H0 & H1 & H2)]]].
  - left. exists r. split; [done|]. intros c Hc'. by apply Hc, H.
  - right; left. exists c. split; [done|]. intros r Hr. by apply Hc, H.
  - right; right; left. repeat split; by apply Hc.
  - right; right; right. repeat split; by apply Hc.
Qed.

(** A move on an Empty cell keeps every line that was there. *)
Lemma spec_isWin_after (b : ndarray) (i j : nat) (v p : Z) :
  cell b i j = Some 0 → p ≠ 0 →
  spec_isWin b p → spec_isWin (mark b i j v) p.
Proof.
  intros Hx Hp.
  assert (∀ i' j', cell b i' j' = Some p → cell (mark b i j v) i' j' = Some p) as Hc.
  { intros i' j' H. rewrite cell_mark. case_decide as Hd; [|done].
    destruct Hd as [-> ->]. congruence. }
  intros [(r & Hr & H)|[(c & Hc' & H)|[(H0 & H1 & H2)|(H0 & H1 & H2)]]].
  - left. exists r. split; [done|]. intros c Hc'. by apply Hc, H.
  - right; left. exists c. split; [done|]. intros r Hr. by apply Hc, H.
  - right; right; left. repeat split; by apply Hc.
  - right; right; right. repeat split; by apply Hc.
Qed.

(** ** Every return of [step], by cases *)

Lemma mod9_wrap (a : Z) :
  -9 ≤ a ≤ 8 → 0 ≤ a `mod` 9 ≤ 8 ∧ (a < 0 → a `mod` 9 = a + 9) ∧ (0 ≤ a → a `mod` 9 = a).
Proof.
  intros Ha. pose proof (Z.mod_pos_bound a 9 ltac:(lia)). split; [lia|]. split.
  - intros Hn. rewrite <- (Z_mod_plus_full a 1 9). apply Z.mod_small. lia.
  - intros Hp. apply Z.mod_small. lia.
Qed.

Lemma step_mod9 (σ : world) (b : ndarray) (a : Z) :
  board_is σ b → -9 ≤ a ≤ 8 → step a σ = step (a `mod` 9) σ.
Proof.
  intros [Hb Hs] Ha. destruct (mod9_wrap a Ha) as (_ & Hneg & Hpos).
  destruct (decide (a < 0)).
  - rewrite Hneg by done. apply (step_wrap σ b a Hb Hs). lia.
  - by rewrite Hpos by lia.
Qed.

(** The three ways [step] returns: the illegal-move branch, the agent's
    mark ending the episode, and the opponent's reply at an Empty cell
    [(i, j)].  The action counts modulo 9, for the range [-9, 8] in which
    [step] returns at all on a running episode. *)
Lemma step_cases (σ : world) (b : ndarray) (a : Z) (r : StepReturn) (σ' : world) :
  board_is σ b → (done σ = false → current_player σ = 1) →
  step a σ = Ret r σ' →
  ((done σ = true
    ∨ (-9 ≤ a ≤ 8
       ∧ ∃ v, cell b (decode (a `mod` 9)).1 (decode (a `mod` 9)).2 = Some v ∧ v ≠ 0))
   ∧ r = StepRet (length (heap σ)) (-1)%float true false (<["invalid_move" := true]> ∅)
   ∧ σ' = World (heap σ ++ [b]) (board σ) (current_player σ) true (rng σ))
  ∨ (playing σ b ∧ -9 ≤ a ≤ 8 ∧ legal b (a `mod` 9)
     ∧ ((is_win_array (agent_move b (a `mod` 9)) 1
         || np_all_nonzero (agent_move b (a `mod` 9)) = true
         ∧ r = StepRet (length (heap σ))
                 (if is_win_array (agent_move b (a `mod` 9)) 1 then 1 else 0)%float
                 true false ∅
         ∧ σ' = World (<[board σ := agent_move b (a `mod` 9)]> (heap σ)
                       ++ [agent_move b (a `mod` 9)])
                  (board σ) 1 true (rng σ))
        ∨ (is_win_array (agent_move b (a `mod` 9)) 1 = false
           ∧ np_all_nonzero (agent_move b (a `mod` 9)) = false
           ∧ ∃ i j,
               cell (agent_move b (a `mod` 9)) i j = Some 0
               ∧ r = StepRet (length (heap σ))
                       (if is_win_array (mark (agent_move b (a `mod` 9)) i j 2) 2
                        then -1 else 0)%float
                       (is_win_array (mark (agent_move b (a `mod` 9)) i j 2) 2
                        || np_all_nonzero (mark (agent_move b (a `mod` 9)) i j 2))
                       false ∅
               ∧ σ' = World (<[board σ := mark (agent_move b (a `mod` 9)) i j 2]> (heap σ)
                             ++ [mark (agent_move b (a `mod` 9)) i j 2])
                        (board σ)
                        (if is_win_array (mark (agent_move b (a `mod` 9)) i j 2) 2
                            || np_all_nonzero (mark (agent_move b (a `mod` 9)) i j 2)
                         then 2 else 1)
                        (is_win_array (mark (agent_move b (a `mod` 9)) i j 2) 2
                         || np_all_nonzero (mark (agent_move b (a `mod` 9)) i j 2))
                        (λ k, rng σ (S k))))).
Proof.
  intros Hbs Hcp Hst. pose proof Hbs as [Hb Hs].
  destruct (decide (done σ = true)) as [Hd|Hd].
  { left. rewrite (step_invalid σ b a Hb (or_introl Hd)) in Hst. simplify_eq.
    split; [by left|done]. }
  apply not_true_is_false in Hd. specialize (Hcp Hd).
  destruct (decide (-9 ≤ a ≤ 8)) as [Ha|Ha].
  2: { rewrite (step_index_error σ b a Hb Hd) in Hst; [done|].
       by apply getitem_out_of_range. }
  rewrite (step_mod9 σ b a Hbs Ha) in Hst.
  destruct (mod9_wrap a Ha) as (Ha' & _). set (a' := a `mod` 9) in *.
  destruct (getitem_decode b a' Hs Ha') as [Hg [v Hv]].
  destruct (decide (v = 0)) as [->|Hne].
  - right. assert (Hp : playing σ b) by done. assert (Hl : legal b a') by done.
    do 3 (split; [done|]).
    pose proof (step_legal σ b a' Hp Hl) as H. cbv zeta in H.
    destruct (is_win_array (agent_move b a') 1 || np_all_nonzero (agent_move b a'))
      eqn:He.
    + left. rewrite H in Hst. simplify_eq. done.
    + right. apply orb_false_iff in He as [Hw Hf]. do 2 (split; [done|]).
      destruct H as (i & j & _ & Hij & H). exists i, j. split; [done|].
      rewrite H in Hst. simplify_eq. done.
  - left. rewrite (step_invalid σ b a' Hb) in Hst.
    + simplify_eq. split; [|done]. right. split; [done|]. by exists v.
    + right. exists v. by rewrite Hg.
Qed.

Lemma board_is_update (h : list ndarray) (l : loc) (b b' : ndarray)
    (p : Z) (d : bool) (g : nat → nat) :
  h !! l = Some b → shape33 b' →
  board_is (World (<[l := b']> h ++ [b']) l p d g) b'.
Proof.
  intros Hb Hs. split; [|done]. simpl.
  assert (Hl : (l < length h)%nat) by (by eapply lookup_lt_Some).
  rewrite lookup_app_l by (by rewrite length_insert).
  by apply list_lookup_insert_eq.
Qed.

(** ** The invariant of an episode *)

Lemma episode_inv_reset (σ0 : world) (r : loc * gmap string bool) (σ : world) :
  reset σ0 = Ret r σ → episode_inv 0 σ (np_zeros 3 3).
Proof.
  rewrite reset_run. intros ?. simplify_eq.
  destruct (reset_playing σ0) as (Hb & _ & _).
  assert (count_marks (np_zeros 3 3) 1 = 0%nat) as Hc1 by reflexivity.
  assert (count_marks (np_zeros 3 3) 2 = 0%nat) as Hc2 by reflexivity.
  split; [done|]. split; [by repeat constructor|]. split; [by left|].
  split; [lia|].
  assert (¬ spec_isWin (np_zeros 3 3) 1) as H1.
  { by apply not_spec_isWin; [apply np_zeros_shape|]. }
  assert (¬ spec_isWin (np_zeros 3 3) 2) as H2.
  { by apply not_spec_isWin; [apply np_zeros_shape|]. }
  split; [tauto|]. intros _. do 4 (split; [done|]).
  by apply not_all_nonempty; [apply np_zeros_shape|].
Qed.

Lemma episode_inv_step (k : nat) (σ : world) (b : ndarray) (a : Z)
    (r : StepReturn) (σ' : world) :
  episode_inv k σ b → step a σ = Ret r σ' → ∃ b', episode_inv (S k) σ' b'.
Proof.
  intros (Hbs & Hv & Hcp & Hcnt & Hboth & Hrun) Hst.
  assert (done σ = false → current_player σ = 1) as Hcp'.
  { intros Hd. destruct Hcp as [?|[_ ?]]; [done|congruence]. }
  pose proof Hbs as [Hb Hs].
  destruct (step_cases σ b a r σ' Hbs Hcp' Hst)
    as [(_ & -> & ->)|(Hp & _ & Hl & [(_ & -> & ->)|(Hw1 & Hf1 & i & j & Hij & -> & ->)])].
  - (* the illegal-move branch: the board stays *)
    exists b. split.
    { split; [|done]. simpl. by apply lookup_app_l_Some. }
    split; [done|]. split.
    { simpl. destruct Hcp as [?|[? _]]; [by left|by right]. }
    do 2 (split; [done|]). simpl. done.
  - (* the agent's mark ends the episode *)
    destruct Hp as (_ & Hd & Hp1). destruct (Hrun Hd) as (Hc1 & Hc2 & Hn1 & Hn2 & _).
    destruct Hl as [Ha Hc]. set (a' := a `mod` 9) in *.
    exists (agent_move b a').
    split. { destruct σ. apply (board_is_update _ _ b); [done|]. by apply shape33_mark. }
    split. { apply valid_marks_mark; [done|lia]. }
    split; [by left|].
    pose proof (count_mark b _ _ 0 1 1 Hc) as Hk1.
    rewrite decide_False, decide_True in Hk1 by done.
    pose proof (count_mark b _ _ 0 1 2 Hc) as Hk2.
    rewrite !decide_False in Hk2 by done.
    fold (agent_move b a') in Hk1, Hk2.
    split; [lia|]. split; [|done].
    intros [_ H2]. apply Hn2. by apply (spec_isWin_before b _ _ 0 1 2 Hc).
  - (* the opponent replies *)
    destruct Hp as (_ & Hd & Hp1). destruct (Hrun Hd) as (Hc1 & Hc2 & Hn1 & Hn2 & _).
    destruct Hl as [Ha Hc]. set (a' := a `mod` 9) in *.
    assert (Hs1 : shape33 (agent_move b a')) by (by apply shape33_mark).
    assert (Hs2 : shape33 (mark (agent_move b a') i j 2)) by (by apply shape33_mark).
    exists (mark (agent_move b a') i j 2).
    split. { destruct σ. by apply (board_is_update _ _ b). }
    split. { apply valid_marks_mark; [|lia]. apply valid_marks_mark; [done|lia]. }
    split. { simpl. destruct (_ || _); [by right|by left]. }
    pose proof (count_mark b _ _ 0 1 1 Hc) as Hk1.
    rewrite decide_False, decide_True in Hk1 by done.
    pose proof (count_mark b _ _ 0 1 2 Hc) as Hk2.
    rewrite !decide_False in Hk2 by done.
    fold (agent_move b a') in Hk1, Hk2.
    pose proof (count_mark (agent_move b a') i j 0 2 1 Hij) as Hk3.
    rewrite !decide_False in Hk3 by done.
    pose proof (count_mark (agent_move b a') i j 0 2 2 Hij) as Hk4.
    rewrite decide_False, decide_True in Hk4 by done.
    assert (¬ spec_isWin (mark (agent_move b a') i j 2) 1) as Hn1'.
    { intros H1. apply (spec_isWin_before _ _ _ 0 2 1 Hij) in H1; [|done].
      apply is_win_array_spec in H1; [congruence|done]. }
    split; [lia|]. split; [tauto|]. simpl. intros Hover.
    apply orb_false_iff in Hover as [Hw2 Hf2].
    split; [lia|]. split; [lia|]. split; [done|].
    split; [by apply not_spec_isWin|by apply not_all_nonempty].
Qed.

Lemma episode_inv_holds (k : nat) (σ : world) :
  episode k σ → ∃ b, episode_inv k σ b.
Proof.
  induction 1 as [σ0 r σ Hr|k σ a r σ' _ [b IH] Hst].
  - eexists. by eapply episode_inv_reset.
  - by eapply episode_inv_step.
Qed.

Lemma reachable_episode_inv (σ : world) :
  reachable σ → ∃ k b, episode_inv k σ b.
Proof.
  induction 1 as [h g r σ Hi|σ r σ' _ _ Hr|σ a r σ' _ (k & b & IH) Hst
                 |σ a e σ' _ (k & b & IH) Hst].
  - exists 0%nat. eexists. by eapply episode_inv_reset.
  - exists 0%nat. eexists. by eapply episode_inv_reset.
  - exists (S k). by eapply episode_inv_step.
  - exists k, b. destruct IH as (Hbs & Hv & Hcp & Hrest).
    assert (done σ = false → current_player σ = 1) as Hcp'.
    { intros Hd. destruct Hcp as [?|[_ ?]]; [done|congruence]. }
    destruct (step_outcome σ b a Hbs Hcp') as [(_ & _ & Hraise)|(_ & r & σ'' & b' & Hret & _)].
    + rewrite Hraise in Hst. by simplify_eq.
    + congruence.
Qed.

(** A running episode still has an Empty cell, so it is at most four calls
    old. *)
Lemma episode_inv_bound (k : nat) (σ : world) (b : ndarray) :
  episode_inv k σ b → done σ = false →
  (count_marks b 0 + 2 * k = 9)%nat ∧ (k ≤ 4)%nat.
Proof.
  intros ((_ & Hs) & Hv & _ & _ & _ & Hrun) Hd.
  destruct (Hrun Hd) as (Hc1 & Hc2 & _ & _ & Hf).
  pose proof (count_total b Hs Hv) as Ht.
  assert (count_marks b 0 ≠ 0%nat).
  { intros H0. apply Hf. apply np_all_nonzero_spec; [done|].
    by apply np_all_nonzero_count. }
  lia.
Qed.

(** ** Rewards are three different numbers *)

Lemma float_distinct :
  1%float ≠ 0%float ∧ 1%float ≠ (-1)%float ∧ (-1)%float ≠ 0%float.
Proof.
  repeat split; intros H.
  - apply (f_equal (λ x, PrimFloat.eqb x 0)) in H. vm_compute in H. discriminate.
  - apply (f_equal (λ x, PrimFloat.eqb x 1)) in H. vm_compute in H. discriminate.
  - apply (f_equal (λ x, PrimFloat.eqb x 0)) in H. vm_compute in H. discriminate.
Qed.

Lemma invalid_info_nonempty :
  (<["invalid_move" := true]> ∅ : gmap string bool) ≠ ∅.
Proof. apply insert_non_empty. Qed.

(** A mark on an Empty cell leaves the marks already on the board alone. *)
Lemma cell_mark_keeps (b : ndarray) (i j i' j' : nat) (w v : Z) :
  cell b i j = Some 0 → cell b i' j' = Some v → v ≠ 0 →
  cell (mark b i j w) i' j' = Some v.
Proof.
  intros H0 Hv Hne. rewrite cell_mark. case_decide as Hd; [|done].
  destruct Hd as [-> ->]. congruence.
Qed.

Lemma count_agent_move (b : ndarray) (a : Z) :
  legal b a →
  count_marks (agent_move b a) 1 = S (count_marks b 1)
  ∧ count_marks (agent_move b a) 2 = count_marks b 2.
Proof.
  intros [_ Hc]. unfold agent_move.
  pose proof (count_mark b _ _ 0 1 1 Hc) as Hk1.
  rewrite decide_False, decide_True in Hk1 by done.
  pose proof (count_mark b _ _ 0 1 2 Hc) as Hk2.
  rewrite !decide_False in Hk2 by done. lia.
Qed.

Lemma count_reply (b : ndarray) (i j : nat) :
  cell b i j = Some 0 →
  count_marks (mark b i j 2) 1 = count_marks b 1
  ∧ count_marks (mark b i j 2) 2 = S (count_marks b 2).
Proof.
  intros Hc.
  pose proof (count_mark b i j 0 2 1 Hc) as Hk1.
  rewrite !decide_False in Hk1 by done.
  pose proof (count_mark b i j 0 2 2 Hc) as Hk2.
  rewrite decide_False, decide_True in Hk2 by done. lia.
Qed.

(** ** Arrays a caller holds *)

Lemma wf_step (σ : world) (a : Z) (r : StepReturn) (σ' : world) :
  wf σ → step a σ = Ret r σ' → wf σ'.
Proof.
  intros [[b Hb] Hcp] Hst.
  destruct (step_outcome σ b a Hb Hcp)
    as [(_ & _ & Hraise)|(_ & r' & σ'' & b' & Hret & Ho & Hs' & Hcp' & _)];
    [congruence|].
  rewrite Hret in Hst. simplify_eq.
  split; [|done]. exists b'. split; [|done]. by destruct Ho as (_ & Ho & _).
Qed.

Lemma wf_reset (σ : world) (r : loc * gmap string bool) (σ' : world) :
  reset σ = Ret r σ' → wf σ'.
Proof.
  rewrite reset_run. intros ?. simplify_eq.
  destruct (reset_playing σ) as (Hb & _ & _). split; [by eexists|done].
Qed.

(** An array that is not the board keeps its contents, and never becomes
    the board, whatever is called. *)
Lemma held_array_unchanged (σ σ' : world) (o : loc) (x : ndarray) :
  later σ σ' → wf σ → heap σ !! o = Some x → o ≠ board σ →
  heap σ' !! o = Some x ∧ o ≠ board σ'.
Proof.
  induction 1 as [σ|σ a r σ1 σ' Hst _ IH|σ r σ1 σ' Hr _ IH]; intros Hwf Hx Hne.
  - done.
  - destruct (observation_survives_step σ a r σ1 o x Hwf Hx Hne Hst) as (Hx1 & Hne1 & _).
    apply IH; [by eapply wf_step|done..].
  - pose proof (wf_reset σ r σ1 Hr) as Hwf1.
    rewrite reset_run in Hr. simplify_eq. apply IH; [done| |].
    + simpl. by apply lookup_app_l_Some.
    + simpl. apply lookup_lt_Some in Hx. lia.
Qed.

(** One more returned call in a run. *)
Lemma reachable_play_one (σ : world) (a : Z) :
  reachable σ → (if step a σ is Ret _ _ then True else False) →
  reachable (play [a] σ).
Proof.
  intros Hr H. simpl. destruct (step a σ) as [r σ'| |] eqn:E; try done.
  by eapply reach_step.
Qed.

(** One more returned call into an episode. *)
Lemma episode_play_one (k : nat) (σ : world) (a : Z) :
  episode k σ → (if step a σ is Ret _ _ then True else False) →
  episode (S k) (play [a] σ).
Proof.
  intros He H. simpl. destruct (step a σ) as [r σ'| |] eqn:E; try done.
  by eapply episode_step.
Qed.

(** ** Rendering *)

Lemma str_app_cons (c : Ascii.ascii) (s t : string) :
  String c s +:+ t = String c (s +:+ t).
Proof. reflexivity. Qed.

Lemma str_app_assoc (s1 s2 s3 : string) : (s1 +:+ s2) +:+ s3 = s1 +:+ s2 +:+ s3.
Proof. induction s1 as [|c s1 IH]; [done|]. by rewrite !str_app_cons, IH. Qed.

Lemma str_app_nil_r (s : string) : s +:+ "" = s.
Proof. induction s as [|c s IH]; [done|]. by rewrite str_app_cons, IH. Qed.

Lemma str_length_app (s1 s2 : string) :
  String.length (s1 +:+ s2) = (String.length s1 + String.length s2)%nat.
Proof. induction s1 as [|c s1 IH]; [done|]. rewrite str_app_cons. simpl. by rewrite IH. Qed.

(** The three marks have a glyph of one character each, all different; no
    other number has a glyph. *)
Lemma glyph_valid (v : Z) :
  0 ≤ v ≤ 2 →
  chars !! v = Some (glyph v)
  ∧ ∃ c, glyph v = String c ""
         ∧ ∀ v', 0 ≤ v' ≤ 2 → glyph v' = String c "" → v' = v.
Proof.
  intros Hv. assert (v = 0 ∨ v = 1 ∨ v = 2) as [->|[->| ->]] by lia.
  all: split; [done|]; eexists; split; [done|].
  all: intros v' Hv'; assert (v' = 0 ∨ v' = 1 ∨ v' = 2) as [->|[->| ->]] by lia; done.
Qed.

Lemma chars_missing (v : Z) : ¬ (0 ≤ v ≤ 2) → chars !! v = None.
Proof.
  intros Hv. unfold chars.
  rewrite !lookup_insert_ne by lia. apply lookup_singleton_ne. lia.
Qed.

Lemma row_chars_valid (row : list Z) :
  Forall (λ x, 0 ≤ x ≤ 2) row → row_chars row = inr (glyph <$> row).
Proof.
  induction 1 as [|v row Hv _ IH]; [done|].
  simpl. destruct (glyph_valid v Hv) as [-> _]. by rewrite IH.
Qed.

Lemma row_chars_missing (pre post : list Z) (v : Z) :
  Forall (λ x, 0 ≤ x ≤ 2) pre → ¬ (0 ≤ v ≤ 2) →
  row_chars (pre ++ v :: post) = inl v.
Proof.
  intros Hpre Hv. induction Hpre as [|x pre Hx _ IH]; simpl.
  - by rewrite chars_missing.
  - destruct (glyph_valid x Hx) as [-> _]. by rewrite IH.
Qed.

Lemma render_rows_valid (rows : ndarray) (stdout : string) :
  valid_marks rows →
  render_rows rows stdout = Printed (stdout +:+ board_text rows).
Proof.
  unfold board_text. intros Hv. revert stdout.
  induction Hv as [|row rows Hrow _ IH]; intros stdout; [done|].
  simpl. rewrite (row_chars_valid row Hrow), IH.
  unfold row_line. by rewrite !str_app_assoc.
Qed.

Lemma render_rows_missing (rows1 rows2 : ndarray) (pre post : list Z) (v : Z)
    (stdout : string) :
  valid_marks rows1 → Forall (λ x, 0 ≤ x ≤ 2) pre → ¬ (0 ≤ v ≤ 2) →
  render_rows (rows1 ++ (pre ++ v :: post) :: rows2) stdout
  = KeyError (stdout +:+ rows_text rows1) v.
Proof.
  intros Hv Hpre Hbad. revert stdout.
  induction Hv as [|row rows Hrow _ IH]; intros stdout; simpl.
  - rewrite (row_chars_missing pre post v Hpre Hbad). by rewrite str_app_nil_r.
  - rewrite (row_chars_valid row Hrow), IH.
    unfold row_line. by rewrite !str_app_assoc.
Qed.

Lemma valid_marks_cells (a0 a1 a2 a3 a4 a5 a6 a7 a8 : Z) :
  valid_marks [[a0; a1; a2]; [a3; a4; a5]; [a6; a7; a8]] →
  0 ≤ a0 ≤ 2 ∧ 0 ≤ a1 ≤ 2 ∧ 0 ≤ a2 ≤ 2 ∧ 0 ≤ a3 ≤ 2 ∧ 0 ≤ a4 ≤ 2 ∧ 0 ≤ a5 ≤ 2
  ∧ 0 ≤ a6 ≤ 2 ∧ 0 ≤ a7 ≤ 2 ∧ 0 ≤ a8 ≤ 2.
Proof.
  unfold valid_marks. rewrite !Forall_cons. tauto.
Qed.

(** ** What holds of every state of a run *)

(** X1. In every state a run can reach, the board has shape (3, 3) and
    every cell holds 0, 1 or 2, as [observation_space] says; the turn marker
    is 1 or 2, and it is 2 only once the episode is over. *)
Theorem reachable_observation_space (σ : world) :
  reachable σ →
  ∃ b, board_is σ b
       ∧ valid_marks b
       ∧ (current_player σ = 1 ∨ (current_player σ = 2 ∧ done σ = true)).
Proof.
  intros Hr. destruct (reachable_episode_inv σ Hr) as (k & b & Hb & Hv & Hcp & _).
  by exists b.
Qed.

Lemma reachable_observation_space_witness :
  ∃ b, board_is (fresh_world 0) b
       ∧ valid_marks b
       ∧ (current_player (fresh_world 0) = 1
          ∨ (current_player (fresh_world 0) = 2 ∧ done (fresh_world 0) = true)).
Proof.
  apply (reachable_observation_space (fresh_world 0)).
  apply (reach_init [] (λ _, 0%nat) (1%nat, ∅)). reflexivity.
Defined.

(** X2. In every state a run can reach, PlayerA has as many marks on the
    board as PlayerB or one more, and the two players never both have
    three-in-a-row. *)
Theorem reachable_mark_balance (σ : world) :
  reachable σ →
  ∃ b, board_is σ b
       ∧ (count_marks b 2 ≤ count_marks b 1 ≤ count_marks b 2 + 1)%nat
       ∧ ¬ (spec_isWin b 1 ∧ spec_isWin b 2).
Proof.
  intros Hr.
  destruct (reachable_episode_inv σ Hr) as (k & b & Hb & _ & _ & Hc & Hw & _).
  by exists b.
Qed.

Lemma reachable_mark_balance_witness :
  ∃ b, board_is (fresh_world 0) b
       ∧ (count_marks b 2 ≤ count_marks b 1 ≤ count_marks b 2 + 1)%nat
       ∧ ¬ (spec_isWin b 1 ∧ spec_isWin b 2).
Proof.
  apply (reachable_mark_balance (fresh_world 0)).
  apply (reach_init [] (λ _, 0%nat) (1%nat, ∅)). reflexivity.
Defined.

(** X3. While an episode runs, [k] returned calls of [step] after the
    [reset], it is the agent's turn, each player has exactly [k] marks on
    the board, [9 - 2k] cells are Empty, and neither player has
    three-in-a-row. *)
Theorem episode_running (k : nat) (σ : world) :
  episode k σ → done σ = false →
  ∃ b, board_is σ b
       ∧ current_player σ = 1
       ∧ count_marks b 1 = k
       ∧ count_marks b 2 = k
       ∧ (count_marks b 0 + 2 * k = 9)%nat
       ∧ ¬ spec_isWin b 1
       ∧ ¬ spec_isWin b 2.
Proof.
  intros He Hd. destruct (episode_inv_holds k σ He) as [b Hinv].
  destruct (episode_inv_bound k σ b Hinv Hd) as [H0 _].
  destruct Hinv as (Hb & _ & Hcp & _ & _ & Hrun).
  destruct (Hrun Hd) as (H1 & H2 & Hn1 & Hn2 & _).
  exists b. split; [done|]. split; [|done].
  destruct Hcp as [?|[_ ?]]; [done|congruence].
Qed.

Lemma episode_running_witness :
  ∃ b, board_is (play [2; 4; 8; 7] (fresh_world 0)) b
       ∧ current_player (play [2; 4; 8; 7] (fresh_world 0)) = 1
       ∧ count_marks b 1 = 4%nat
       ∧ count_marks b 2 = 4%nat
       ∧ (count_marks b 0 + 2 * 4 = 9)%nat
       ∧ ¬ spec_isWin b 1
       ∧ ¬ spec_isWin b 2.
Proof.
  apply (episode_running 4 (play [2; 4; 8; 7] (fresh_world 0))).
  - change (episode 4 (play [7] (play [8] (play [4] (play [2] (fresh_world 0)))))).
    repeat (apply episode_play_one; [|vm_compute; exact I]).
    apply (episode_reset (World [] 0%nat 0 false (λ _, 0%nat)) (1%nat, ∅)).
    reflexivity.
  - reflexivity.
Defined.

(** The episode of the witness, one call before its end: the opponent always
    takes the first Empty cell, and one cell is left. *)
Example episode_fourth_call :
  heap (play [2; 4; 8; 7] (fresh_world 0)) !! board (play [2; 4; 8; 7] (fresh_world 0))
  = Some [[2; 2; 1]; [2; 1; 2]; [0; 1; 1]].
Proof. reflexivity. Qed.

(** X4. An episode is over after at most five returned calls of [step]:
    from the fifth call on, [self.done] is true. *)
Theorem episode_length (k : nat) (σ : world) :
  episode k σ → (5 ≤ k)%nat → done σ = true.
Proof.
  intros He Hk. destruct (episode_inv_holds k σ He) as [b Hinv].
  destruct (done σ) eqn:Hd; [done|].
  destruct (episode_inv_bound k σ b Hinv Hd) as [_ H4]. lia.
Qed.

Lemma episode_length_witness :
  done (play [2; 4; 8; 7; 6] (fresh_world 0)) = true.
Proof.
  apply (episode_length 5 (play [2; 4; 8; 7; 6] (fresh_world 0))).
  - change (episode 5 (play [6] (play [7] (play [8] (play [4]
                                   (play [2] (fresh_world 0))))))).
    repeat (apply episode_play_one; [|vm_compute; exact I]).
    apply (episode_reset (World [] 0%nat 0 false (λ _, 0%nat)) (1%nat, ∅)).
    reflexivity.
  - lia.
Defined.

(** X5. In every state a run can reach, [step] with an action of
    [action_space] (0 to 8) returns, and the observation it returns lies in
    [observation_space]: an array of shape (3, 3) whose cells are 0, 1
    or 2. *)
Theorem step_observation_in_space (σ : world) (a : Z) :
  reachable σ → 0 ≤ a ≤ 8 →
  ∃ r σ' b',
    step a σ = Ret r σ'
    ∧ heap σ' !! obs r = Some b'
    ∧ shape33 b'
    ∧ valid_marks b'.
Proof.
  intros Hr Ha. destruct (reachable_episode_inv σ Hr) as (k & b & Hinv).
  pose proof Hinv as (Hbs & _ & Hcp & _).
  assert (done σ = false → current_player σ = 1) as Hcp'.
  { intros Hd. destruct Hcp as [?|[_ ?]]; [done|congruence]. }
  destruct (step_outcome σ b a Hbs Hcp')
    as [(_ & Hout & _)|(_ & r & σ' & b' & Hret & Ho & _)]; [lia|].
  destruct (episode_inv_step k σ b a r σ' Hinv Hret) as (b'' & [Hb'' Hs''] & Hv'' & _).
  destruct Ho as (_ & Hb' & Hobs & _).
  assert (b'' = b') as -> by congruence.
  by exists r, σ', b'.
Qed.

Lemma step_observation_in_space_witness :
  ∃ r σ' b',
    step 4 (fresh_world 0) = Ret r σ'
    ∧ heap σ' !! obs r = Some b'
    ∧ shape33 b'
    ∧ valid_marks b'.
Proof.
  apply (step_observation_in_space (fresh_world 0) 4).
  - apply (reach_init [] (λ _, 0%nat) (1%nat, ∅)). reflexivity.
  - lia.
Defined.

(** ** What a call of [step] does to the board, and what it returns *)

(** X6. A call of [step] that returns never erases or changes a mark: every
    non-Empty cell of the board before the call holds the same mark after
    it.  Either the board is untouched, or PlayerA has one mark more and
    PlayerB the same number or one more. *)
Theorem step_keeps_marks (σ : world) (b : ndarray) (a : Z) (r : StepReturn)
    (σ' : world) :
  board_is σ b → (done σ = false → current_player σ = 1) →
  step a σ = Ret r σ' →
  ∃ b',
    observed σ σ' (obs r) b'
    ∧ (∀ i j v, cell b i j = Some v → v ≠ 0 → cell b' i j = Some v)
    ∧ (b' = b
       ∨ (count_marks b' 1 = S (count_marks b 1)
          ∧ (count_marks b' 2 = count_marks b 2
             ∨ count_marks b' 2 = S (count_marks b 2)))).
Proof.
  intros Hbs Hcp Hst. pose proof Hbs as [Hb Hs].
  destruct (step_cases σ b a r σ' Hbs Hcp Hst)
    as [(_ & -> & ->)|(Hp & _ & Hl & [(_ & -> & ->)|(_ & _ & i & j & Hij & -> & ->)])].
  - exists b. split; [|split; [done|by left]].
    destruct σ as [h l p d g]. by apply observed_same.
  - exists (agent_move b (a `mod` 9)).
    split. { destruct σ as [h l p d g]. by apply (observed_update h l b). }
    destruct (count_agent_move b _ Hl) as [H1 H2].
    split; [|right; split; [done|by left]].
    intros i j v Hv Hne. by apply (cell_mark_keeps b _ _ i j 1 v (proj2 Hl)).
  - exists (mark (agent_move b (a `mod` 9)) i j 2).
    split. { destruct σ as [h l p d g]. by apply (observed_update h l b). }
    destruct (count_agent_move b _ Hl) as [H1 H2].
    destruct (count_reply _ i j Hij) as [H3 H4].
    split; [|right; split; [lia|right; lia]].
    intros i' j' v Hv Hne. apply (cell_mark_keeps _ i j i' j' 2 v Hij); [|done].
    by apply (cell_mark_keeps b _ _ i' j' 1 v (proj2 Hl)).
Qed.

Lemma step_keeps_marks_witness :
  ∃ b',
    observed (world_of [[1; 0; 0]; [0; 2; 0]; [0; 0; 0]] 3)
      (World [[[1; 0; 1]; [0; 2; 0]; [2; 0; 0]]; [[1; 0; 1]; [0; 2; 0]; [2; 0; 0]]]
             0%nat 1 false (λ _, 3%nat))
      (obs (StepRet 1%nat 0%float false false ∅)) b'
    ∧ (∀ i j v, cell [[1; 0; 0]; [0; 2; 0]; [0; 0; 0]] i j = Some v → v ≠ 0 →
                cell b' i j = Some v)
    ∧ (b' = [[1; 0; 0]; [0; 2; 0]; [0; 0; 0]]
       ∨ (count_marks b' 1 = S (count_marks [[1; 0; 0]; [0; 2; 0]; [0; 0; 0]] 1)
          ∧ (count_marks b' 2 = count_marks [[1; 0; 0]; [0; 2; 0]; [0; 0; 0]] 2
             ∨ count_marks b' 2 = S (count_marks [[1; 0; 0]; [0; 2; 0]; [0; 0; 0]] 2)))).
Proof.
  apply (step_keeps_marks (world_of [[1; 0; 0]; [0; 2; 0]; [0; 0; 0]] 3)
           [[1; 0; 0]; [0; 2; 0]; [0; 0; 0]] 2).
  - split; [reflexivity | split; [reflexivity | repeat constructor]].
  - reflexivity.
  - reflexivity.
Defined.

(** X7. Whatever [step] returns: truncated is False, terminated is
    [self.done] as the call leaves it, info is empty or holds exactly
    "invalid_move" = True, and the reward is -1.0, 0.0 or 1.0.  A return
    that is not terminal has reward 0.0 and empty info; a flagged return has
    reward -1.0 and is terminal; a reward of 1.0 is terminal and unflagged. *)
Theorem step_return_contract (σ : world) (b : ndarray) (a : Z) (r : StepReturn)
    (σ' : world) :
  board_is σ b → (done σ = false → current_player σ = 1) →
  step a σ = Ret r σ' →
  truncated r = false
  ∧ terminated r = done σ'
  ∧ (info r = ∅ ∨ info r = <["invalid_move" := true]> ∅)
  ∧ (reward r = (-1)%float ∨ reward r = 0%float ∨ reward r = 1%float)
  ∧ (terminated r = false → reward r = 0%float ∧ info r = ∅)
  ∧ (info r ≠ ∅ → reward r = (-1)%float ∧ terminated r = true)
  ∧ (reward r = 1%float → terminated r = true ∧ info r = ∅).
Proof.
  intros Hbs Hcp Hst. destruct float_distinct as (H10 & H1m & Hm0).
  destruct (step_cases σ b a r σ' Hbs Hcp Hst)
    as [(_ & -> & ->)|(Hp & _ & Hl & [(_ & -> & ->)|(_ & _ & i & j & Hij & -> & ->)])];
    simpl.
  - do 2 (split; [done|]). split; [by right|]. split; [by left|].
    split; [done|]. split; [done|]. intros H. by symmetry in H.
  - do 2 (split; [done|]). split; [by left|].
    destruct (is_win_array _ 1).
    + split; [by right; right|]. done.
    + split; [by right; left|]. split; [done|]. split; [done|]. intros H.
      by symmetry in H.
  - do 2 (split; [done|]). split; [by left|].
    destruct (is_win_array _ 2); simpl.
    + split; [by left|]. split; [done|]. split; [done|]. intros H. by symmetry in H.
    + split; [by right; left|]. split; [done|]. split; [done|]. intros H.
      by symmetry in H.
Qed.

Lemma step_return_contract_witness :
  let r := StepRet 1%nat (-1)%float true false (<["invalid_move" := true]> ∅) in
  let σ' := World [[[1; 2; 0]; [0; 0; 0]; [0; 0; 0]]; [[1; 2; 0]; [0; 0; 0]; [0; 0; 0]]]
                  0%nat 1 true (λ _, 0%nat) in
  truncated r = false
  ∧ terminated r = done σ'
  ∧ (info r = ∅ ∨ info r = <["invalid_move" := true]> ∅)
  ∧ (reward r = (-1)%float ∨ reward r = 0%float ∨ reward r = 1%float)
  ∧ (terminated r = false → reward r = 0%float ∧ info r = ∅)
  ∧ (info r ≠ ∅ → reward r = (-1)%float ∧ terminated r = true)
  ∧ (reward r = 1%float → terminated r = true ∧ info r = ∅).
Proof.
  apply (step_return_contract (world_of [[1; 2; 0]; [0; 0; 0]; [0; 0; 0]] 0)
           [[1; 2; 0]; [0; 0; 0]; [0; 0; 0]] 1).
  - split; [reflexivity | split; [reflexivity | repeat constructor]].
  - reflexivity.
  - reflexivity.
Defined.

(** X8. On a running episode with no line on the board (every running state
    of a run is one), when [step] returns: the reward is 1.0 exactly when
    PlayerA has three-in-a-row on the board after the call; it is -1.0
    exactly when PlayerB has, or the move was flagged invalid; and the move
    is flagged exactly when the cell the action decodes to was occupied. *)
Theorem step_reward_meaning (σ : world) (b : ndarray) (a : Z) (r : StepReturn)
    (σ' : world) :
  playing σ b → ¬ spec_isWin b 1 → ¬ spec_isWin b 2 →
  step a σ = Ret r σ' →
  ∃ b',
    observed σ σ' (obs r) b'
    ∧ (reward r = 1%float ↔ spec_isWin b' 1)
    ∧ (reward r = (-1)%float
       ↔ spec_isWin b' 2 ∨ info r !! "invalid_move" = Some true)
    ∧ (info r !! "invalid_move" = Some true
       ↔ ∃ v, cell b (decode (a `mod` 9)).1 (decode (a `mod` 9)).2 = Some v ∧ v ≠ 0).
Proof.
  intros Hp Hn1 Hn2 Hst. destruct float_distinct as (H10 & H1m & Hm0).
  pose proof Hp as (Hbs & Hd & Hcp). pose proof Hbs as [Hb Hs].
  destruct (step_cases σ b a r σ' Hbs (λ _, Hcp) Hst)
    as [([?|(_ & Hocc)] & -> & ->)
       |(_ & _ & Hl & [(Hend & -> & ->)|(Hw1 & Hf1 & i & j & Hij & -> & ->)])];
    [congruence| | |].
  - (* flagged: the board is as before *)
    exists b. split. { destruct σ as [h l p d g]. by apply observed_same. }
    simpl. split; [|split].
    + split; [intros H; by symmetry in H | done].
    + split; [by right | done].
    + done.
  - (* the agent's mark ends the episode *)
    assert (Hs1 : shape33 (agent_move b (a `mod` 9))) by (by apply shape33_mark).
    assert (¬ spec_isWin (agent_move b (a `mod` 9)) 2) as Hn2'.
    { intros H. apply Hn2. by apply (spec_isWin_before b _ _ 0 1 2 (proj2 Hl)). }
    exists (agent_move b (a `mod` 9)).
    split. { destruct σ as [h l p d g]. by apply (observed_update h l b). }
    simpl. split; [|split].
    + rewrite <- (is_win_array_spec _ 1 Hs1). by destruct (is_win_array _ 1).
    + split; [|intros [?|?]; done].
      destruct (is_win_array _ 1); intros H; by symmetry in H.
    + split; [done|]. intros (v & Hv & Hne). destruct Hl as [_ Hl].
      unfold decode in *. simpl in *. congruence.
  - (* the opponent replies *)
    assert (Hs1 : shape33 (agent_move b (a `mod` 9))) by (by apply shape33_mark).
    assert (Hs2 : shape33 (mark (agent_move b (a `mod` 9)) i j 2))
      by (by apply shape33_mark).
    assert (¬ spec_isWin (mark (agent_move b (a `mod` 9)) i j 2) 1) as Hn1'.
    { intros H1. apply (spec_isWin_before _ _ _ 0 2 1 Hij) in H1; [|done].
      apply is_win_array_spec in H1; [congruence|done]. }
    exists (mark (agent_move b (a `mod` 9)) i j 2).
    split. { destruct σ as [h l p d g]. by apply (observed_update h l b). }
    simpl. split; [|split].
    + split; [|done]. destruct (is_win_array _ 2); intros H; by symmetry in H.
    + rewrite <- (is_win_array_spec _ 2 Hs2).
      destruct (is_win_array _ 2); split; try done; [by left|].
      intros [?|?]; done.
    + split; [done|]. intros (v & Hv & Hne). destruct Hl as [_ Hl].
      unfold decode in *. simpl in *. congruence.
Qed.

Lemma step_reward_meaning_witness :
  let b := [[1; 0; 0]; [2; 2; 0]; [1; 0; 0]] in
  let r := StepRet 1%nat (-1)%float true false ∅ in
  let σ' := World [[[1; 1; 0]; [2; 2; 2]; [1; 0; 0]]; [[1; 1; 0]; [2; 2; 2]; [1; 0; 0]]]
                  0%nat 2 true (λ _, 1%nat) in
  ∃ b',
    observed (world_of b 1) σ' (obs r) b'
    ∧ (reward r = 1%float ↔ spec_isWin b' 1)
    ∧ (reward r = (-1)%float
       ↔ spec_isWin b' 2 ∨ info r !! "invalid_move" = Some true)
    ∧ (info r !! "invalid_move" = Some true
       ↔ ∃ v, cell b (decode (1 `mod` 9)).1 (decode (1 `mod` 9)).2 = Some v ∧ v ≠ 0).
Proof.
  apply (step_reward_meaning (world_of [[1; 0; 0]; [2; 2; 0]; [1; 0; 0]] 1)
           [[1; 0; 0]; [2; 2; 0]; [1; 0; 0]] 1).
  - split; [|split; reflexivity].
    split; [reflexivity | split; [reflexivity | repeat constructor]].
  - apply not_spec_isWin; [split; [reflexivity | repeat constructor] | reflexivity].
  - apply not_spec_isWin; [split; [reflexivity | repeat constructor] | reflexivity].
  - reflexivity.
Defined.

(** X9. [step] draws from numpy's generator at most once: exactly once when
    the opponent puts down a mark, and not at all when the move is flagged
    invalid or the agent's mark ends the episode. *)
Theorem step_draws_with_reply (σ : world) (b : ndarray) (a : Z) (r : StepReturn)
    (σ' : world) :
  board_is σ b → (done σ = false → current_player σ = 1) →
  step a σ = Ret r σ' →
  ∃ b',
    observed σ σ' (obs r) b'
    ∧ ((count_marks b' 2 = count_marks b 2 ∧ rng σ' = rng σ)
       ∨ (count_marks b' 2 = S (count_marks b 2)
          ∧ rng σ' = (λ k, rng σ (S k)) ∧ info r = ∅)).
Proof.
  intros Hbs Hcp Hst. pose proof Hbs as [Hb Hs].
  destruct (step_cases σ b a r σ' Hbs Hcp Hst)
    as [(_ & -> & ->)|(Hp & _ & Hl & [(_ & -> & ->)|(_ & _ & i & j & Hij & -> & ->)])].
  - exists b. split; [|by left].
    destruct σ as [h l p d g]. by apply observed_same.
  - exists (agent_move b (a `mod` 9)).
    split. { destruct σ as [h l p d g]. by apply (observed_update h l b). }
    left. by destruct (count_agent_move b _ Hl) as [_ ->].
  - exists (mark (agent_move b (a `mod` 9)) i j 2).
    split. { destruct σ as [h l p d g]. by apply (observed_update h l b). }
    right. destruct (count_agent_move b _ Hl) as [_ <-].
    by destruct (count_reply _ i j Hij) as [_ ->].
Qed.

Lemma step_draws_with_reply_witness :
  let b := [[1; 0; 0]; [0; 2; 0]; [0; 0; 0]] in
  let r := StepRet 1%nat 0%float false false ∅ in
  let σ' := World [[[1; 0; 1]; [0; 2; 0]; [2; 0; 0]]; [[1; 0; 1]; [0; 2; 0]; [2; 0; 0]]]
                  0%nat 1 false (λ _, 3%nat) in
  ∃ b',
    observed (world_of b 3) σ' (obs r) b'
    ∧ ((count_marks b' 2 = count_marks b 2 ∧ rng σ' = rng (world_of b 3))
       ∨ (count_marks b' 2 = S (count_marks b 2)
          ∧ rng σ' = (λ k, rng (world_of b 3) (S k)) ∧ info r = ∅)).
Proof.
  apply (step_draws_with_reply (world_of [[1; 0; 0]; [0; 2; 0]; [0; 0; 0]] 3)
           [[1; 0; 0]; [0; 2; 0]; [0; 0; 0]] 2).
  - split; [reflexivity | split; [reflexivity | repeat constructor]].
  - reflexivity.
  - reflexivity.
Defined.

(** ** Observations are snapshots *)

(** X10. The array [step] or [reset] returns is a snapshot: whatever calls
    of [step] and [reset] follow, it holds the board as it was when the call
    returned, and after a [reset] the board array of the episode before is
    left as it was. *)
Theorem observation_is_snapshot (σ : world) :
  wf σ →
  (∀ a r σ1 σ' b1,
     step a σ = Ret r σ1 → heap σ1 !! board σ1 = Some b1 → later σ1 σ' →
     heap σ' !! obs r = Some b1 ∧ obs r ≠ board σ')
  ∧ (∀ r σ1 σ' b,
       reset σ = Ret r σ1 → heap σ !! board σ = Some b → later σ1 σ' →
       heap σ' !! r.1 = Some (np_zeros 3 3) ∧ r.1 ≠ board σ'
       ∧ heap σ' !! board σ = Some b ∧ board σ ≠ board σ').
Proof.
  intros Hwf. split.
  - intros a r σ1 σ' b1 Hst Hb1 Hl.
    pose proof (wf_step σ a r σ1 Hwf Hst) as Hwf1.
    destruct Hwf as [[b Hb] Hcp].
    destruct (step_outcome σ b a Hb Hcp)
      as [(_ & _ & Hraise)|(_ & r' & σ'' & b' & Hret & Ho & _)]; [congruence|].
    rewrite Hret in Hst. simplify_eq.
    destruct Ho as (_ & Hb' & Hobs & Hne & _).
    apply (held_array_unchanged σ1 σ' (obs r) b1 Hl Hwf1); [congruence|done].
  - intros r σ1 σ' b Hr Hb Hl.
    pose proof (wf_reset σ r σ1 Hr) as Hwf1.
    rewrite reset_run in Hr. simplify_eq. simpl.
    apply lookup_lt_Some in Hb as Hlt.
    destruct (held_array_unchanged _ σ' (S (length (heap σ))) (np_zeros 3 3) Hl Hwf1)
      as [H1 H2].
    { simpl. rewrite lookup_app_r by lia.
      by replace (S _ - _)%nat with 1%nat by lia. }
    { simpl. lia. }
    destruct (held_array_unchanged _ σ' (board σ) b Hl Hwf1) as [H3 H4].
    { simpl. by apply lookup_app_l_Some. }
    { simpl. lia. }
    done.
Qed.

Lemma observation_is_snapshot_witness :
  (∀ a r σ1 σ' b1,
     step a (fresh_world 0) = Ret r σ1 → heap σ1 !! board σ1 = Some b1 →
     later σ1 σ' →
     heap σ' !! obs r = Some b1 ∧ obs r ≠ board σ')
  ∧ (∀ r σ1 σ' b,
       reset (fresh_world 0) = Ret r σ1 →
       heap (fresh_world 0) !! board (fresh_world 0) = Some b → later σ1 σ' →
       heap σ' !! r.1 = Some (np_zeros 3 3) ∧ r.1 ≠ board σ'
       ∧ heap σ' !! board (fresh_world 0) = Some b
       ∧ board (fresh_world 0) ≠ board σ').
Proof.
  apply (observation_is_snapshot (fresh_world 0)).
  split.
  - exists (np_zeros 3 3).
    split; [reflexivity | split; [reflexivity | repeat constructor]].
  - reflexivity.
Defined.

(** The first observation of an episode still shows one mark each after
    two more calls of [step]. *)
Example observation_kept :
  heap (play [2; 4; 8] (fresh_world 0)) !! 2%nat = Some [[2; 0; 1]; [0; 0; 0]; [0; 0; 0]]
  ∧ heap (play [2; 4; 8] (fresh_world 0)) !! board (play [2; 4; 8] (fresh_world 0))
    = Some [[2; 2; 1]; [2; 1; 0]; [0; 0; 1]].
Proof. split; reflexivity. Qed.

(** ** Win detection and the symmetries of the board *)

(** X11. Win detection does not depend on how the board is turned: mirrored
    left to right, mirrored top to bottom or transposed, a board of shape
    (3, 3) wins for a player exactly when the board itself does. *)
Theorem is_win_symmetric (b : ndarray) (player : Z) :
  shape33 b →
  is_win_array (np_fliplr b) player = is_win_array b player
  ∧ is_win_array (np_flipud b) player = is_win_array b player
  ∧ is_win_array (np_transpose b) player = is_win_array b player.
Proof.
  intros Hs. board_cells b Hs.
  unfold is_win_array, any, np_all_eq, np_fliplr, np_flipud, np_transpose. simpl.
  repeat match goal with
         | |- context [?x =? player] => destruct (x =? player)
         end; done.
Qed.

Lemma is_win_symmetric_witness :
  is_win_array (np_fliplr [[1; 2; 0]; [1; 2; 0]; [1; 0; 0]]) 1
  = is_win_array [[1; 2; 0]; [1; 2; 0]; [1; 0; 0]] 1
  ∧ is_win_array (np_flipud [[1; 2; 0]; [1; 2; 0]; [1; 0; 0]]) 1
    = is_win_array [[1; 2; 0]; [1; 2; 0]; [1; 0; 0]] 1
  ∧ is_win_array (np_transpose [[1; 2; 0]; [1; 2; 0]; [1; 0; 0]]) 1
    = is_win_array [[1; 2; 0]; [1; 2; 0]; [1; 0; 0]] 1.
Proof.
  apply (is_win_symmetric [[1; 2; 0]; [1; 2; 0]; [1; 0; 0]] 1).
  split; [reflexivity | repeat constructor].
Defined.

(** A column of the agent's becomes a row when the board is transposed, and
    still wins. *)
Example is_win_transposed :
  np_transpose [[1; 2; 0]; [1; 2; 0]; [1; 0; 0]] = [[1; 1; 1]; [2; 2; 0]; [0; 0; 0]]
  ∧ is_win_array [[1; 1; 1]; [2; 2; 0]; [0; 0; 0]] 1 = true.
Proof. split; reflexivity. Qed.

(** ** Rendering *)

(** X12. In every state a run can reach, [render] raises nothing and
    leaves the environment as it is; it prints the three rows of the board,
    each as its three glyphs with single spaces between, and then an empty
    line: 19 characters in all. *)
Theorem render_reachable (σ : world) :
  reachable σ →
  ∃ b, board_is σ b
       ∧ render σ = Ret (Printed (board_text b)) σ
       ∧ String.length (board_text b) = 19%nat.
Proof.
  intros Hr. destruct (reachable_episode_inv σ Hr) as (k & b & [Hb Hs] & Hv & _).
  exists b. split; [done|]. split.
  - unfold render. run. rewrite Hb. simpl. unfold mret, M_ret.
    by rewrite (render_rows_valid b "" Hv).
  - board_cells b Hs.
    destruct (valid_marks_cells _ _ _ _ _ _ _ _ _ Hv)
      as (H0 & H1 & H2 & H3 & H4 & H5 & H6 & H7 & H8).
    destruct (glyph_valid _ H0) as (_ & c0 & E0 & _).
    destruct (glyph_valid _ H1) as (_ & c1 & E1 & _).
    destruct (glyph_valid _ H2) as (_ & c2 & E2 & _).
    destruct (glyph_valid _ H3) as (_ & c3 & E3 & _).
    destruct (glyph_valid _ H4) as (_ & c4 & E4 & _).
    destruct (glyph_valid _ H5) as (_ & c5 & E5 & _).
    destruct (glyph_valid _ H6) as (_ & c6 & E6 & _).
    destruct (glyph_valid _ H7) as (_ & c7 & E7 & _).
    destruct (glyph_valid _ H8) as (_ & c8 & E8 & _).
    unfold board_text, rows_text, row_line. simpl.
    rewrite E0, E1, E2, E3, E4, E5, E6, E7, E8. reflexivity.
Qed.

Lemma render_reachable_witness :
  ∃ b, board_is (play [2; 4; 8] (fresh_world 0)) b
       ∧ render (play [2; 4; 8] (fresh_world 0))
         = Ret (Printed (board_text b)) (play [2; 4; 8] (fresh_world 0))
       ∧ String.length (board_text b) = 19%nat.
Proof.
  apply (render_reachable (play [2; 4; 8] (fresh_world 0))).
  change (reachable (play [8] (play [4] (play [2] (fresh_world 0))))).
  repeat (apply reachable_play_one; [|vm_compute; exact I]).
  apply (reach_init [] (λ _, 0%nat) (1%nat, ∅)). reflexivity.
Defined.

(** What [render] prints three calls into the episode of the witness. *)
Example render_run :
  render (play [2; 4; 8] (fresh_world 0))
  = Ret (Printed ("O O X" +:+ newline +:+ "O X ." +:+ newline +:+ ". . X" +:+ newline
                  +:+ newline))
        (play [2; 4; 8] (fresh_world 0)).
Proof. reflexivity. Qed.



(** X14. A cell that holds a number other than 0, 1 and 2 has no glyph:
    [render] prints the rows before the first such row and then raises
    KeyError with the first such number of that row; nothing of that row is
    printed, and the environment is left as it is. *)
Theorem render_key_error (σ : world) (rows1 rows2 : ndarray) (pre post : list Z)
    (v : Z) :
  heap σ !! board σ = Some (rows1 ++ (pre ++ v :: post) :: rows2) →
  valid_marks rows1 → Forall (λ x, 0 ≤ x ≤ 2) pre → ¬ (0 ≤ v ≤ 2) →
  render σ = Ret (KeyError (rows_text rows1) v) σ.
Proof.
  intros Hb Hv Hpre Hbad. unfold render. run. rewrite Hb. simpl. unfold mret, M_ret.
  by rewrite (render_rows_missing rows1 rows2 pre post v "" Hv Hpre Hbad).
Qed.

Lemma render_key_error_witness :
  render (world_of ([[1; 0; 2]] ++ ([0] ++ 5 :: [0]) :: [[0; 0; 0]]) 0)
  = Ret (KeyError (rows_text [[1; 0; 2]]) 5)
        (world_of ([[1; 0; 2]] ++ ([0] ++ 5 :: [0]) :: [[0; 0; 0]]) 0).
Proof.
  apply (render_key_error
           (world_of ([[1; 0; 2]] ++ ([0] ++ 5 :: [0]) :: [[0; 0; 0]]) 0)
           [[1; 0; 2]] [[0; 0; 0]] [0] [0] 5).
  - reflexivity.
  - repeat constructor; lia.
  - repeat constructor; lia.
  - lia.
Defined.

(** The row before the offending one is on standard output when KeyError is
    raised. *)
Example render_key_error_run :
  render (world_of [[1; 0; 2]; [0; 5; 0]; [0; 0; 0]] 0)
  = Ret (KeyError ("X . O" +:+ newline) 5)
        (world_of [[1; 0; 2]; [0; 5; 0]; [0; 0; 0]] 0).
Proof. reflexivity. Qed.

End TicTacToeEnv.
